(** * VisionSafe: PPE association, missing-gear derivation and strike tracking

    A shallow embedding of
      - [visionsafe/backend/ppe_detection.py]  (geometry and association rules),
      - [visionsafe/backend/violations.py]     (strike system with cooldown),
      - [visionsafe/backend/database.py]       ([record_violation]),
      - the per-person body of the monitoring loop of
        [visionsafe/pages/live_monitor.py],
      - the legacy [get_missing_gear] of [app_final.py].

    Numbers.  Box coordinates and timestamps are Python floats; they are
    modelled as exact rationals [Q], i.e. the real-valued reading of the
    arithmetic (no rounding, no NaN).  Strike counts are Python ints, modelled
    as [Z].  Class ids arrive as integral numpy scalars and are modelled by the
    integer that [int(ppe_class)] yields. *)

From Stdlib Require Import QArith Qminmax Lqa.
From Stdlib Require OrderedTypeEx.
From Stdlib Require Import Ascii.
From stdpp Require Import gmap strings list pretty sorting.

#[local] Open Scope Q_scope.

(** ** Rational comparisons as booleans *)

Module QB.

Definition leb (x y : Q) : bool := Qle_bool x y.
Definition ltb (x y : Q) : bool := negb (Qle_bool y x).

End QB.

(** ** Bounding boxes *)

(** A box is the 4-element array [[x1, y1, x2, y2]]. *)
Record box : Type := Box { bx1 : Q; by1 : Q; bx2 : Q; by2 : Q }.

(** The data model's well-formed boxes (here with the closed inequalities). *)
Definition well_formed (b : box) : Prop := bx1 b <= bx2 b /\ by1 b <= by2 b.

(** ** [calculate_iou] *)

Definition intersection (box1 box2 : box) : Q :=
  let x1 := Qmax (bx1 box1) (bx1 box2) in
  let y1 := Qmax (by1 box1) (by1 box2) in
  let x2 := Qmin (bx2 box1) (bx2 box2) in
  let y2 := Qmin (by2 box1) (by2 box2) in
  Qmax 0 (x2 - x1) * Qmax 0 (y2 - y1).

Definition area (b : box) : Q := (bx2 b - bx1 b) * (by2 b - by1 b).

Definition union (box1 box2 : box) : Q :=
  area box1 + area box2 - intersection box1 box2.

Definition calculate_iou (box1 box2 : box) : Q :=
  if QB.ltb 0 (union box1 box2)
  then intersection box1 box2 / union box1 box2
  else 0.

(** ** [is_associated] *)

Definition is_associated (person_box item_box : box) (item_class : Z) : bool :=
  let px1 := bx1 person_box in
  let py1 := by1 person_box in
  let px2 := bx2 person_box in
  let py2 := by2 person_box in
  let person_height := py2 - py1 in
  let cx := (bx1 item_box + bx2 item_box) / 2 in
  let cy := (by1 item_box + by2 item_box) / 2 in
  if bool_decide (item_class = 1%Z \/ item_class = 2%Z) then
    let top_third := py1 + person_height / 3 in
    (QB.leb py1 cy && QB.leb cy top_third) && (QB.leb px1 cx && QB.leb cx px2)
  else if bool_decide (item_class = 6%Z) then
    let bottom_fifth := py2 - person_height / 5 in
    (QB.leb bottom_fifth cy && QB.leb cy py2) && (QB.leb px1 cx && QB.leb cx px2)
  else if bool_decide (item_class = 3%Z) then
    let upper_middle := py1 + person_height * (4 # 10) in
    (QB.leb py1 cy && QB.leb cy upper_middle) && (QB.leb px1 cx && QB.leb cx px2)
  else if bool_decide (item_class = 4%Z) then
    let torso_top := py1 + person_height * (2 # 10) in
    let torso_bottom := py1 + person_height * (7 # 10) in
    (QB.leb torso_top cy && QB.leb cy torso_bottom) && (QB.leb px1 cx && QB.leb cx px2)
  else if bool_decide (item_class = 5%Z) then
    QB.ltb (1 # 10) (calculate_iou person_box item_box)
  else
    (QB.leb px1 cx && QB.leb cx px2) && (QB.leb py1 cy && QB.leb cy py2).

(** ** [get_missing_gear] (backend) *)

(** The dict literal [class_mapping]. *)
Definition class_mapping : gmap Z string :=
  <[1%Z := "Helmet"]> (<[2%Z := "Welding Helmet"]> (<[3%Z := "Goggles"]>
  (<[4%Z := "Vest"]> (<[5%Z := "Gloves"]> (<[6%Z := "Shoes"]> ∅))))).

(** [f"Class_{ppe_class}"]: the class scalar is an integral float, printed
    with a trailing [.0]. *)
Definition class_label (ppe_class : Z) : string :=
  "Class_" +:+ pretty ppe_class +:+ ".0".

Definition gear_name (ppe_class : Z) : string :=
  default (class_label ppe_class) (class_mapping !! ppe_class).

(** The loop over [zip(ppe_boxes, ppe_classes)] filling [detected_gear]. *)
Definition detect_step (person_box : box) (detected_gear : gset string)
    (d : box * Z) : gset string :=
  if is_associated person_box d.1 d.2
  then detected_gear ∪ {[ gear_name d.2 ]}
  else detected_gear.

Definition detected_gear (person_box : box) (ppe_boxes : list box)
    (ppe_classes : list Z) : gset string :=
  foldl (detect_step person_box) ∅ (zip ppe_boxes ppe_classes).

(** The dict literal [required_ppe], in insertion order. *)
Definition required_ppe : list (string * string) :=
  [("Vest", "Vest"); ("Gloves", "Gloves"); ("Shoes", "Shoes")].

Definition head_alternatives : list string :=
  ["Helmet"; "Welding Helmet"; "Goggles"].

(** The second half of [get_missing_gear]: from the detected set to the
    missing list. *)
Definition missing_of (detected : gset string) : list string :=
  let missing :=
    (filter (λ gl : string * string, gl.2 ∉ detected) required_ppe).*2 in
  let has_head_protection :=
    existsb (λ gear, bool_decide (gear ∈ detected)) head_alternatives in
  if negb has_head_protection then missing ++ ["Headgear"] else missing.

Definition get_missing_gear (person_box : box) (ppe_boxes : list box)
    (ppe_classes : list Z) : list string :=
  missing_of (detected_gear person_box ppe_boxes ppe_classes).

(** ** [get_missing_gear] (legacy, [app_final.py]) *)

Module Legacy.

Definition center_inside (person_box b : box) : bool :=
  let center_x := (bx1 b + bx2 b) / 2 in
  let center_y := (by1 b + by2 b) / 2 in
  (QB.ltb (bx1 person_box) center_x && QB.ltb center_x (bx2 person_box))
  && (QB.ltb (by1 person_box) center_y && QB.ltb center_y (by2 person_box)).

Definition add_gear (detected_gear : gset string) (cls_id : Z) : gset string :=
  if bool_decide (cls_id = 1%Z) then detected_gear ∪ {[ "Helmet" ]}
  else if bool_decide (cls_id = 2%Z) then detected_gear ∪ {[ "Welding Helmet" ]}
  else if bool_decide (cls_id = 3%Z) then detected_gear ∪ {[ "Goggles" ]}
  else if bool_decide (cls_id = 4%Z) then detected_gear ∪ {[ "Vest" ]}
  else if bool_decide (cls_id = 5%Z) then detected_gear ∪ {[ "Gloves" ]}
  else if bool_decide (cls_id = 6%Z) then detected_gear ∪ {[ "Shoes" ]}
  else detected_gear.

Definition detect_step (person_box : box) (detected_gear : gset string)
    (d : box * Z) : gset string :=
  if center_inside person_box d.1 then add_gear detected_gear d.2
  else detected_gear.

Definition detected_gear (person_box : box) (ppe_boxes : list box)
    (ppe_classes : list Z) : gset string :=
  foldl (detect_step person_box) ∅ (zip ppe_boxes ppe_classes).

Definition missing_of (detected_gear : gset string) : list string :=
  let m0 : list string := [] in
  let m1 := if bool_decide ("Vest" ∉ detected_gear) then m0 ++ ["Vest"] else m0 in
  let m2 := if bool_decide ("Gloves" ∉ detected_gear) then m1 ++ ["Gloves"] else m1 in
  let m3 := if bool_decide ("Shoes" ∉ detected_gear) then m2 ++ ["Shoes"] else m2 in
  let has_head_protection :=
    bool_decide ("Helmet" ∈ detected_gear)
    || bool_decide ("Welding Helmet" ∈ detected_gear)
    || bool_decide ("Goggles" ∈ detected_gear) in
  if negb has_head_protection then m3 ++ ["Headgear"] else m3.

Definition get_missing_gear (person_box : box) (ppe_boxes : list box)
    (ppe_classes : list Z) : list string :=
  missing_of (detected_gear person_box ppe_boxes ppe_classes).

End Legacy.

(** ** Strike system ([violations.py]) *)

(** The worker record dict, always created with its three keys
    (['strikes'], ['last_violation'], ['last_strike_time']). *)
Record worker : Type := Worker {
  strikes : Z;
  last_violation : list string;
  last_strike_time : Q
}.

(** [sorted(missing_items)] on a list of strings: ascending code-point order. *)
Fixpoint insort (x : string) (l : list string) : list string :=
  match l with
  | [] => [x]
  | y :: l' => if String.leb x y then x :: y :: l' else y :: insort x l'
  end.

Definition sorted (l : list string) : list string := foldr insort [] l.

(** [update_strikes]: the mutated record is returned next to the result;
    [now] is the reading of [time.time()]. *)
Definition update_strikes (w : worker) (missing_items : list string)
    (now cooldown : Q) : bool * worker :=
  let current_signature := sorted missing_items in
  let last_signature := last_violation w in
  let is_new_violation := bool_decide (current_signature ≠ last_signature) in
  let cooldown_expired := QB.ltb cooldown (now - last_strike_time w) in
  let has_violations := bool_decide (0 < length missing_items)%nat in
  if has_violations && is_new_violation && cooldown_expired then
    (true, {| strikes := strikes w + 1;
              last_violation := current_signature;
              last_strike_time := now |})
  else if negb has_violations then
    (false, {| strikes := strikes w;
               last_violation := [];
               last_strike_time := last_strike_time w |})
  else (false, w).

Definition default_cooldown : Q := 5.
Definition default_max_strikes : Z := 15.

Definition is_fired (strikes max_strikes : Z) : bool :=
  bool_decide (max_strikes ≤ strikes)%Z.

Definition reset_worker (w : worker) : worker :=
  {| strikes := 0; last_violation := []; last_strike_time := 0 |}.

(** BGR colour triples of the status display. *)
Definition colour : Type := Z * Z * Z.

Definition get_worker_status (w : worker) (missing_items : list string)
    (max_strikes : Z) : colour * string * bool :=
  let strikes := strikes w in
  if bool_decide (max_strikes ≤ strikes)%Z then ((0, 0, 255)%Z, "FIRED!", true)
  else if bool_decide (0 < length missing_items)%nat
       then ((0, 165, 255)%Z, "UNSAFE", false)
       else ((0, 255, 0)%Z, "SAFE", false).

(** A sequence of [update_strikes] calls on one worker: each call carries its
    missing items and its clock reading; the results are collected in order. *)
Fixpoint run_strikes (cooldown : Q) (w : worker)
    (calls : list (list string * Q)) : list bool * worker :=
  match calls with
  | [] => ([], w)
  | (missing_items, now) :: rest =>
      let '(r, w') := update_strikes w missing_items now cooldown in
      let '(rs, w'') := run_strikes cooldown w' rest in
      (r :: rs, w'')
  end.

Definition accepted (rs : list bool) : Z := Z.of_nat (count_occ bool_dec rs true).

(** ** Violation records ([database.py]) and the monitoring tick *)

Record violation : Type := Violation {
  v_time : string;
  v_id : string;
  v_violation : string;
  v_strikes : Z;
  v_evidence : string
}.

(** [record_violation]; [clock] is the formatted [datetime.now()]. *)
Definition record_violation (clock : string) (worker_id : Z)
    (missing_items : list string) (strikes : Z)
    (evidence_path : option string) : violation :=
  {| v_time := clock;
     v_id := "Worker-" +:+ pretty worker_id;
     v_violation := String.concat ", " missing_items;
     v_strikes := strikes;
     v_evidence := default "" evidence_path |}.

(** [save_violation]: append to the CSV file, keeping the last 500 rows; an
    I/O error is swallowed and leaves the file as it was. *)
Definition save_violation (io_ok : bool) (rec : violation)
    (file : list violation) : list violation :=
  if io_ok
  then let df_final := file ++ [rec] in drop (length df_final - 500) df_final
  else file.

(** Session state of the monitor plus the CSV file. *)
Record monitor : Type := Monitor {
  worker_db : gmap Z worker;
  violation_log : list violation;
  database_file : list violation
}.

(** What the outside world supplies while one person is processed. *)
Record env : Type := Env {
  e_now : Q;
  e_clock : string;
  e_snapshot : option string;
  e_io_ok : bool
}.

Definition new_worker : worker :=
  {| strikes := 0; last_violation := []; last_strike_time := 0 |}.

(** Lines 119-144 of the monitoring loop, for one person. *)
Definition evaluate_worker (cooldown : Q) (e : env) (pid : Z)
    (missing_items : list string) (st : monitor) : bool * monitor :=
  let db0 :=
    match worker_db st !! pid with
    | Some _ => worker_db st
    | None => <[pid := new_worker]> (worker_db st)
    end in
  let w := default new_worker (db0 !! pid) in
  let '(new_strike, w') := update_strikes w missing_items (e_now e) cooldown in
  let db1 := <[pid := w']> db0 in
  if new_strike then
    let violation :=
      record_violation (e_clock e) pid missing_items (strikes w') (e_snapshot e) in
    (true, {| worker_db := db1;
              violation_log := violation_log st ++ [violation];
              database_file := save_violation (e_io_ok e) violation (database_file st) |})
  else
    (false, {| worker_db := db1;
               violation_log := violation_log st;
               database_file := database_file st |}).

(** Lines 116-144: the missing gear is computed, then the worker evaluated. *)
Definition process_person (cooldown : Q) (e : env) (pid : Z) (pbox : box)
    (ppe_boxes : list box) (ppe_classes : list Z) (st : monitor) : bool * monitor :=
  evaluate_worker cooldown e pid (get_missing_gear pbox ppe_boxes ppe_classes) st.

(** ** The legacy loop body, the frame loop and the log readers *)

(** The per-person body of the legacy loop ([app_final.py], lines 236-279). *)
Module LegacyLoop.

Definition COOLDOWN_SECONDS : Q := 5.
Definition MAX_STRIKES : Z := 15.

(** The strike logic written inline in the loop: the strike branch, then the
    separate [if is_safe] that clears the signature. *)
Definition strike_step (w : worker) (missing_items : list string)
    (current_time : Q) : bool * worker :=
  let is_safe := bool_decide (length missing_items = 0%nat) in
  let current_violation_signature := sorted missing_items in
  let is_new_fault :=
    bool_decide (current_violation_signature ≠ last_violation w) in
  let is_cooldown_over :=
    QB.ltb COOLDOWN_SECONDS (current_time - last_strike_time w) in
  let struck := negb is_safe && is_new_fault && is_cooldown_over in
  let w1 :=
    if struck
    then {| strikes := strikes w + 1;
            last_violation := current_violation_signature;
            last_strike_time := current_time |}
    else w in
  let w2 :=
    if is_safe
    then {| strikes := strikes w1;
            last_violation := [];
            last_strike_time := last_strike_time w1 |}
    else w1 in
  (struck, w2).

(** The whole body for one person: registry, log and CSV file.  The snapshot
    file name is always recorded, and the CSV write is not guarded. *)
Definition evaluate_worker (current_time : Q) (clock snap_filename : string)
    (pid : Z) (missing_items : list string) (st : monitor) : monitor :=
  let db0 :=
    match worker_db st !! pid with
    | Some _ => worker_db st
    | None => <[pid := new_worker]> (worker_db st)
    end in
  let w := default new_worker (db0 !! pid) in
  let '(struck, w') := strike_step w missing_items current_time in
  let db1 := <[pid := w']> db0 in
  if struck then
    let violation_record :=
      {| v_time := clock;
         v_id := "Worker-" +:+ pretty pid;
         v_violation := String.concat ", " missing_items;
         v_strikes := strikes w';
         v_evidence := snap_filename |} in
    let df_final := database_file st ++ [violation_record] in
    {| worker_db := db1;
       violation_log := violation_log st ++ [violation_record];
       database_file := drop (length df_final - 500) df_final |}
  else
    {| worker_db := db1;
       violation_log := violation_log st;
       database_file := database_file st |}.

End LegacyLoop.

(** One row of the tracker's result: box, class and track id. *)
Record detection : Type := Detection { det_box : box; det_cls : Z; det_id : Z }.

(** [[i for i, cls in enumerate(classes) if P(cls)]], counting from [i]. *)
Fixpoint indices_from (P : Z → bool) (i : nat) (classes : list Z) : list nat :=
  match classes with
  | [] => []
  | cls :: rest =>
      if P cls then i :: indices_from P (S i) rest
      else indices_from P (S i) rest
  end.

(** [extract_detections]; [results] is [None] when the tracker assigned no
    ids.  Returns the three arrays (or [None]), the person indices and the
    equipment indices. *)
Definition extract_detections (results : option (list detection))
    : option (list box * list Z * list Z) * list nat * list nat :=
  match results with
  | None => (None, [], [])
  | Some dets =>
      let boxes := det_box <$> dets in
      let classes := det_cls <$> dets in
      let track_ids := det_id <$> dets in
      let person_indices := indices_from (λ cls, bool_decide (cls = 0%Z)) 0 classes in
      let ppe_indices := indices_from (λ cls, bool_decide (cls ≠ 0%Z)) 0 classes in
      (Some (boxes, classes, track_ids), person_indices, ppe_indices)
  end.

(** [a[indices]]: an index out of range is an error. *)
Definition take_at {A : Type} (a : list A) (indices : list nat) : option (list A) :=
  mapM (λ i, a !! i) indices.

(** The [for idx in person_indices] loop; [k] counts the persons processed,
    and [oracle k] is what the outside world supplies for the [k]-th. *)
Fixpoint person_loop (cooldown : Q) (oracle : nat → env)
    (boxes : list box) (track_ids : list Z)
    (ppe_boxes : list box) (ppe_classes : list Z)
    (k : nat) (person_indices : list nat) (st : monitor) : option monitor :=
  match person_indices with
  | [] => Some st
  | idx :: rest =>
      pid ← track_ids !! idx;
      pbox ← boxes !! idx;
      person_loop cooldown oracle boxes track_ids ppe_boxes ppe_classes (S k) rest
        (process_person cooldown (oracle k) pid pbox ppe_boxes ppe_classes st).2
  end.

Definition process_frame (cooldown : Q) (oracle : nat → env)
    (results : option (list detection)) (st : monitor) : option monitor :=
  let '(arrays, person_indices, ppe_indices) := extract_detections results in
  match arrays with
  | Some (boxes, classes, track_ids) =>
      if bool_decide (0 < length person_indices)%nat then
        ppe_boxes ← take_at boxes ppe_indices;
        ppe_classes ← take_at classes ppe_indices;
        person_loop cooldown oracle boxes track_ids ppe_boxes ppe_classes
          0 person_indices st
      else Some st
  | None => Some st
  end.

(** The label drawn on the frame for one person ([live_monitor.py], lines
    146-159); indexing an empty [missing_items] is an error. *)
Definition frame_label (pid : Z) (w : worker) (missing_items : list string)
    (max_strikes : Z) : option string :=
  let is_safe := bool_decide (length missing_items = 0%nat) in
  let '(_, _, is_fired_flag) := get_worker_status w missing_items max_strikes in
  if is_fired_flag then Some ("ID:" +:+ pretty pid +:+ " FIRED!")
  else if negb is_safe
       then first_missing ← missing_items !! 0%nat;
            Some ("ID:" +:+ pretty pid +:+ " " +:+ first_missing)
       else Some ("ID:" +:+ pretty pid +:+ " SAFE").

(** [clear_database]: the file is removed; an error is swallowed and leaves
    it in place. *)
Definition clear_database (io_ok : bool) (file : list violation) : list violation :=
  if io_ok then [] else file.

(** The button handler: the CSV file, then the registry and the log. *)
Definition delete_all_records (io_ok : bool) (st : monitor) : monitor :=
  {| worker_db := ∅;
     violation_log := [];
     database_file := clear_database io_ok (database_file st) |}.

(** [df.tail(n)]: nothing for [n = 0], the last [n] rows for positive [n],
    all but the first [-n] rows for negative [n]. *)
Definition tail {A : Type} (n : Z) (df : list A) : list A :=
  if bool_decide (n = 0)%Z then []
  else if bool_decide (0 < n)%Z then drop (length df - Z.to_nat n) df
  else drop (Z.to_nat (- n)) df.

(** The [/recent] endpoint, on the frame [df] that [load_database] returned:
    its rows as [read_csv] parsed them (or no rows when the file is absent or
    unreadable), of whatever type [A] the parsed rows have. *)
Definition recent {A : Type} (limit : Z) (df : list A) : list A :=
  match df with
  | [] => []
  | _ => reverse (tail limit df)
  end.

(** [v.split(", ")]: scan from the left, cut at every occurrence of a comma
    followed by a space; [cur] is the piece being read. *)
Fixpoint split_go (s cur : string) : list string :=
  match s with
  | EmptyString => [cur]
  | String c rest =>
      match rest with
      | String c2 rest2 =>
          if Ascii.eqb c ","%char && Ascii.eqb c2 " "%char
          then cur :: split_go rest2 ""
          else split_go rest (cur +:+ String c "")
      | EmptyString => split_go rest (cur +:+ String c "")
      end
  end.

Definition split_comma_space (v : string) : list string := split_go v "".

(** [pd.Series(values).value_counts().to_dict()], as a finite map. *)
Definition value_counts (values : list string) : gmap string nat :=
  foldr (λ x counts, <[x := S (default 0%nat (counts !! x))]> counts) ∅ values.

(** [get_violations_by_type] on the [Violation] column of the loaded file. *)
Definition get_violations_by_type (column : list string) : gmap string nat :=
  match column with
  | [] => ∅
  | _ => value_counts (column ≫= split_comma_space)
  end.

(** ** Notions used to state the properties *)

(** The missing list as a function of four yes/no answers. *)
Definition missing_from (vest gloves shoes head : bool) : list string :=
  (if vest then [] else ["Vest"]) ++ (if gloves then [] else ["Gloves"])
  ++ (if shoes then [] else ["Shoes"]) ++ (if head then [] else ["Headgear"]).

Definition has_head (detected : gset string) : bool :=
  bool_decide ("Helmet" ∈ detected) || bool_decide ("Welding Helmet" ∈ detected)
  || bool_decide ("Goggles" ∈ detected).

(** The six labels the missing list looks at. *)
Definition tracked_gear : list string :=
  ["Vest"; "Gloves"; "Shoes"; "Helmet"; "Welding Helmet"; "Goggles"].

Definition same_gear (s1 s2 : gset string) : Prop :=
  ∀ g, g ∈ tracked_gear → (g ∈ s1 ↔ g ∈ s2).

Definition center_x (b : box) : Q := (bx1 b + bx2 b) / 2.
Definition center_y (b : box) : Q := (by1 b + by2 b) / 2.

(** The helmet band: within the horizontal extent, and between the top edge
    and one third of the height below it. *)
Definition in_top_third (person_box item_box : box) : Prop :=
  (bx1 person_box <= center_x item_box ∧ center_x item_box <= bx2 person_box)
  ∧ (by1 person_box <= center_y item_box
     ∧ center_y item_box <= by1 person_box + (by2 person_box - by1 person_box) / 3).

(** The default association rule: the item's centre inside the person box. *)
Definition center_in_box (person_box item_box : box) : bool :=
  (QB.leb (bx1 person_box) (center_x item_box)
   && QB.leb (center_x item_box) (bx2 person_box))
  && (QB.leb (by1 person_box) (center_y item_box)
      && QB.leb (center_y item_box) (by2 person_box)).

(** The two association tests agree on every detection of a known class. *)
Definition tests_agree (person_box : box) (ppe_boxes : list box)
    (ppe_classes : list Z) : Prop :=
  ∀ d, d ∈ zip ppe_boxes ppe_classes → (1 ≤ d.2 ≤ 6)%Z →
       Legacy.center_inside person_box d.1 = is_associated person_box d.1 d.2.

(** The three outcomes of one call. *)
Inductive outcome (w : worker) (missing_items : list string) (now cooldown : Q)
  : bool * worker → Prop :=
| Accepted :
    missing_items ≠ [] → sorted missing_items ≠ last_violation w →
    cooldown < now - last_strike_time w →
    outcome w missing_items now cooldown
      (true, {| strikes := strikes w + 1;
                last_violation := sorted missing_items;
                last_strike_time := now |})
| Cleared :
    missing_items = [] →
    outcome w missing_items now cooldown
      (false, {| strikes := strikes w;
                 last_violation := [];
                 last_strike_time := last_strike_time w |})
| Absorbed :
    missing_items ≠ [] →
    (sorted missing_items = last_violation w ∨ now - last_strike_time w <= cooldown) →
    outcome w missing_items now cooldown (false, w).

(** The record handed to the log and to the CSV file on an accepted strike. *)
Definition event_of (e : env) (pid : Z) (missing_items : list string)
    (w' : worker) : violation :=
  record_violation (e_clock e) pid missing_items (strikes w') (e_snapshot e).

(** Two boxes are apart when one lies entirely to one side of the other
    (touching edges included). *)
Definition apart (box1 box2 : box) : Prop :=
  bx2 box1 <= bx1 box2 \/ bx2 box2 <= bx1 box1
  \/ by2 box1 <= by1 box2 \/ by2 box2 <= by1 box1.

(** [inner] lies within [outer]. *)
Definition inside (inner outer : box) : Prop :=
  bx1 outer <= bx1 inner /\ bx2 inner <= bx2 outer
  /\ by1 outer <= by1 inner /\ by2 inner <= by2 outer.

(** The classes associated by a vertical band (all known classes but gloves). *)
Definition band_class (c : Z) : Prop :=
  c = 1%Z \/ c = 2%Z \/ c = 3%Z \/ c = 4%Z \/ c = 6%Z.

Definition in_band (person_box item_box : box) (lo hi : Q) : bool :=
  (QB.leb lo (center_y item_box) && QB.leb (center_y item_box) hi)
  && (QB.leb (bx1 person_box) (center_x item_box)
      && QB.leb (center_x item_box) (bx2 person_box)).

(** The requirement policy, in the order the missing list is built. *)
Definition policy : list string := ["Vest"; "Gloves"; "Shoes"; "Headgear"].

(** Class [c] is worn: some detection of that class is associated with the
    person. *)
Definition worn (person_box : box) (ppe_boxes : list box) (ppe_classes : list Z)
    (c : Z) : Prop :=
  ∃ b, (b, c) ∈ zip ppe_boxes ppe_classes ∧ is_associated person_box b c = true.

(** The order [sorted] sorts by. *)
Definition str_le : relation string := λ x y, String.leb x y = true.

(** A record as the strike system leaves it: a non-negative count, no history
    at count 0, and a sorted signature. *)
Definition tidy (w : worker) : Prop :=
  (0 ≤ strikes w)%Z ∧ (strikes w = 0%Z → w = new_worker)
  ∧ Sorted str_le (last_violation w).

(** The persons and the equipment of a frame, and the loop over the persons
    without indices. *)
Definition persons (dets : list detection) : list detection :=
  filter (λ d, det_cls d = 0%Z) dets.

Definition equipment (dets : list detection) : list detection :=
  filter (λ d, det_cls d ≠ 0%Z) dets.

Fixpoint persons_loop (cooldown : Q) (oracle : nat → env)
    (ppe_boxes : list box) (ppe_classes : list Z)
    (k : nat) (ps : list detection) (st : monitor) : monitor :=
  match ps with
  | [] => st
  | p :: rest =>
      persons_loop cooldown oracle ppe_boxes ppe_classes (S k) rest
        (process_person cooldown (oracle k) (det_id p) (det_box p)
           ppe_boxes ppe_classes st).2
  end.

Fixpoint has_comma (s : string) : bool :=
  match s with
  | EmptyString => false
  | String c rest => Ascii.eqb c ","%char || has_comma rest
  end.

(* ===================================================================== *)
(** * Properties *)
(* ===================================================================== *)

(** ** Boolean comparisons reflect the order on [Q] *)

Module QBFacts.

Lemma leb_le x y : QB.leb x y = true <-> x <= y.
Proof. apply Qle_bool_iff. Qed.

Lemma leb_gt x y : QB.leb x y = false <-> y < x.
Proof.
  unfold QB.leb. split; intros H.
  - apply Qnot_le_lt. intros Hle. apply Qle_bool_iff in Hle. congruence.
  - destruct (Qle_bool x y) eqn:E; [|reflexivity].
    apply Qle_bool_iff in E. exfalso. apply (Qlt_not_le _ _ H E).
Qed.

Lemma ltb_lt x y : QB.ltb x y = true <-> x < y.
Proof. unfold QB.ltb. rewrite negb_true_iff. apply leb_gt. Qed.

Lemma ltb_ge x y : QB.ltb x y = false <-> y <= x.
Proof. unfold QB.ltb. rewrite negb_false_iff. apply leb_le. Qed.

End QBFacts.

(** ** Geometry: intersection over union *)

Section Iou.

Variables box1 box2 : box.

Lemma clip_nonneg (v : Q) : 0 <= Qmax 0 v.
Proof. apply Q.le_max_l. Qed.

Lemma clip_le (v w : Q) : 0 <= w -> v <= w -> Qmax 0 v <= w.
Proof. intros H0 Hv. apply Q.max_lub; assumption. Qed.

Lemma intersection_nonneg : 0 <= intersection box1 box2.
Proof.
  unfold intersection; cbv zeta.
  apply Qmult_le_0_compat; apply clip_nonneg.
Qed.

Lemma overlap_x_le_l :
  Qmin (bx2 box1) (bx2 box2) - Qmax (bx1 box1) (bx1 box2) <= bx2 box1 - bx1 box1.
Proof.
  pose proof (Q.le_min_l (bx2 box1) (bx2 box2)).
  pose proof (Q.le_max_l (bx1 box1) (bx1 box2)). lra.
Qed.

Lemma overlap_y_le_l :
  Qmin (by2 box1) (by2 box2) - Qmax (by1 box1) (by1 box2) <= by2 box1 - by1 box1.
Proof.
  pose proof (Q.le_min_l (by2 box1) (by2 box2)).
  pose proof (Q.le_max_l (by1 box1) (by1 box2)). lra.
Qed.

Lemma overlap_x_le_r :
  Qmin (bx2 box1) (bx2 box2) - Qmax (bx1 box1) (bx1 box2) <= bx2 box2 - bx1 box2.
Proof.
  pose proof (Q.le_min_r (bx2 box1) (bx2 box2)).
  pose proof (Q.le_max_r (bx1 box1) (bx1 box2)). lra.
Qed.

Lemma overlap_y_le_r :
  Qmin (by2 box1) (by2 box2) - Qmax (by1 box1) (by1 box2) <= by2 box2 - by1 box2.
Proof.
  pose proof (Q.le_min_r (by2 box1) (by2 box2)).
  pose proof (Q.le_max_r (by1 box1) (by1 box2)). lra.
Qed.

Lemma product_le (a b c d : Q) :
  0 <= a -> a <= b -> 0 <= c -> c <= d -> a * c <= b * d.
Proof. intros. nra. Qed.

Lemma intersection_le_area1 :
  well_formed box1 -> intersection box1 box2 <= area box1.
Proof.
  intros [Hx Hy]. unfold intersection, area; cbv zeta.
  apply product_le; try apply clip_nonneg.
  - apply clip_le; [lra | apply overlap_x_le_l].
  - apply clip_le; [lra | apply overlap_y_le_l].
Qed.

Lemma intersection_le_area2 :
  well_formed box2 -> intersection box1 box2 <= area box2.
Proof.
  intros [Hx Hy]. unfold intersection, area; cbv zeta.
  apply product_le; try apply clip_nonneg.
  - apply clip_le; [lra | apply overlap_x_le_r].
  - apply clip_le; [lra | apply overlap_y_le_r].
Qed.

Lemma intersection_le_union :
  well_formed box1 -> well_formed box2 ->
  intersection box1 box2 <= union box1 box2.
Proof.
  intros H1 H2. unfold union.
  pose proof (intersection_le_area1 H1).
  pose proof (intersection_le_area2 H2). lra.
Qed.

End Iou.

(** C10.  [calculate_iou] never divides by a non-positive union: when the
    union is not positive the result is the literal [0], otherwise it is the
    quotient of intersection by union; and on two well-formed boxes the result
    lies in the closed interval from 0 to 1. *)
Theorem calculate_iou_guarded_and_bounded (box1 box2 : box) :
  (union box1 box2 <= 0 -> calculate_iou box1 box2 = 0)
  /\ (0 < union box1 box2 ->
      calculate_iou box1 box2 = intersection box1 box2 / union box1 box2)
  /\ (well_formed box1 -> well_formed box2 ->
      0 <= calculate_iou box1 box2 /\ calculate_iou box1 box2 <= 1).
Proof.
  unfold calculate_iou. split; [|split; [|intros W1 W2; split]].
  - intros Hu. apply QBFacts.ltb_ge in Hu. rewrite Hu. reflexivity.
  - intros Hu. apply QBFacts.ltb_lt in Hu. rewrite Hu. reflexivity.
  - destruct (QB.ltb 0 (union box1 box2)) eqn:E; [|lra].
    apply QBFacts.ltb_lt in E.
    apply Qle_shift_div_l; [exact E|].
    pose proof (intersection_nonneg box1 box2). lra.
  - destruct (QB.ltb 0 (union box1 box2)) eqn:E; [|lra].
    apply QBFacts.ltb_lt in E.
    apply Qle_shift_div_r; [exact E|].
    pose proof (intersection_le_union box1 box2 W1 W2). lra.
Qed.

Lemma calculate_iou_guarded_and_bounded_witness :
  well_formed (Box 0 0 10 10) /\ well_formed (Box 0 0 10 5)
  /\ 0 <= calculate_iou (Box 0 0 10 10) (Box 0 0 10 5)
  /\ calculate_iou (Box 0 0 10 10) (Box 0 0 10 5) <= 1
  /\ (union (Box 0 0 0 0) (Box 3 3 3 3) <= 0
      /\ calculate_iou (Box 0 0 0 0) (Box 3 3 3 3) = 0).
Proof.
  assert (W1 : well_formed (Box 0 0 10 10)) by (split; simpl; lra).
  assert (W2 : well_formed (Box 0 0 10 5)) by (split; simpl; lra).
  assert (U : union (Box 0 0 0 0) (Box 3 3 3 3) <= 0) by (vm_compute; discriminate).
  destruct (calculate_iou_guarded_and_bounded (Box 0 0 10 10) (Box 0 0 10 5))
    as (_ & _ & Hb).
  destruct (calculate_iou_guarded_and_bounded (Box 0 0 0 0) (Box 3 3 3 3))
    as (Hz & _ & _).
  destruct (Hb W1 W2) as [Hlo Hhi].
  exact (conj W1 (conj W2 (conj Hlo (conj Hhi (conj U (Hz U)))))).
Defined.

(** ** From the detected set to the missing list *)

Lemma missing_of_spec (detected : gset string) :
  missing_of detected =
  missing_from (bool_decide ("Vest" ∈ detected)) (bool_decide ("Gloves" ∈ detected))
               (bool_decide ("Shoes" ∈ detected)) (has_head detected).
Proof.
  unfold missing_of, has_head, required_ppe, head_alternatives.
  rewrite !filter_cons, filter_nil. cbn [snd existsb orb].
  rewrite orb_false_r, orb_assoc.
  destruct (bool_decide ("Helmet" ∈ detected) || bool_decide ("Welding Helmet" ∈ detected)
            || bool_decide ("Goggles" ∈ detected));
    repeat case_decide; repeat case_bool_decide; try contradiction; reflexivity.
Qed.

Lemma legacy_missing_of_spec (detected : gset string) :
  Legacy.missing_of detected =
  missing_from (bool_decide ("Vest" ∈ detected)) (bool_decide ("Gloves" ∈ detected))
               (bool_decide ("Shoes" ∈ detected)) (has_head detected).
Proof.
  unfold Legacy.missing_of, has_head; cbv zeta.
  destruct (bool_decide ("Helmet" ∈ detected) || bool_decide ("Welding Helmet" ∈ detected)
            || bool_decide ("Goggles" ∈ detected));
    repeat case_bool_decide; try contradiction; reflexivity.
Qed.

Lemma same_gear_decide (s1 s2 : gset string) (g : string) :
  same_gear s1 s2 → g ∈ tracked_gear →
  bool_decide (g ∈ s1) = bool_decide (g ∈ s2).
Proof. intros H Hg. apply bool_decide_ext, H, Hg. Qed.

Lemma tracked_gear_elem (g : string) :
  g ∈ tracked_gear ↔
  g = "Vest" ∨ g = "Gloves" ∨ g = "Shoes" ∨ g = "Helmet"
  ∨ g = "Welding Helmet" ∨ g = "Goggles".
Proof. unfold tracked_gear. rewrite !elem_of_cons, elem_of_nil. tauto. Qed.

Lemma missing_from_same_gear (s1 s2 : gset string) :
  same_gear s1 s2 →
  missing_from (bool_decide ("Vest" ∈ s1)) (bool_decide ("Gloves" ∈ s1))
               (bool_decide ("Shoes" ∈ s1)) (has_head s1)
  = missing_from (bool_decide ("Vest" ∈ s2)) (bool_decide ("Gloves" ∈ s2))
                 (bool_decide ("Shoes" ∈ s2)) (has_head s2).
Proof.
  intros H. unfold has_head.
  rewrite !(same_gear_decide s1 s2 _ H)
    by (apply tracked_gear_elem; tauto).
  reflexivity.
Qed.

Lemma missing_of_same_gear (s1 s2 : gset string) :
  same_gear s1 s2 → missing_of s1 = missing_of s2.
Proof. intros H. rewrite !missing_of_spec. by apply missing_from_same_gear. Qed.

Lemma headgear_missing_iff (detected : gset string) :
  "Headgear" ∈ missing_of detected ↔ has_head detected = false.
Proof.
  rewrite missing_of_spec. unfold missing_from.
  destruct (bool_decide ("Vest" ∈ detected)), (bool_decide ("Gloves" ∈ detected)),
    (bool_decide ("Shoes" ∈ detected)), (has_head detected); cbn;
    rewrite ?elem_of_cons, ?elem_of_nil; split; intros H;
    try reflexivity; try discriminate; try tauto;
    repeat (destruct H as [H|H]; [discriminate H|]); try contradiction.
Qed.

(** ** The detection loop as a membership statement *)

Lemma class_mapping_known (c : Z) :
  (1 ≤ c ≤ 6)%Z →
  gear_name c ∈ tracked_gear ∧ class_mapping !! c = Some (gear_name c).
Proof.
  intros Hc.
  assert (c = 1 ∨ c = 2 ∨ c = 3 ∨ c = 4 ∨ c = 5 ∨ c = 6)%Z
    as [->|[->|[->|[->|[->| ->]]]]] by lia;
    (split; [apply tracked_gear_elem; vm_compute; tauto | reflexivity]).
Qed.

Lemma class_mapping_unknown (c : Z) :
  ¬ (1 ≤ c ≤ 6)%Z → gear_name c = class_label c.
Proof.
  intros Hc. unfold gear_name, class_mapping.
  rewrite !lookup_insert_ne, lookup_empty by lia. reflexivity.
Qed.

Lemma class_label_untracked (c : Z) : class_label c ∉ tracked_gear.
Proof.
  rewrite tracked_gear_elem. unfold class_label. cbn [String.append].
  intros [H|[H|[H|[H|[H|H]]]]]; discriminate H.
Qed.

Lemma gear_name_tracked (c : Z) :
  gear_name c ∈ tracked_gear ↔ (1 ≤ c ≤ 6)%Z.
Proof.
  split.
  - intros H. destruct (decide (1 ≤ c ≤ 6)%Z) as [|Hn]; [assumption|].
    rewrite (class_mapping_unknown c Hn) in H.
    by apply class_label_untracked in H.
  - intros H. by apply class_mapping_known.
Qed.

Lemma elem_of_detect_loop (person_box : box) (l : list (box * Z))
    (acc : gset string) (g : string) :
  g ∈ foldl (detect_step person_box) acc l ↔
  g ∈ acc ∨ ∃ d, d ∈ l ∧ is_associated person_box d.1 d.2 = true ∧ g = gear_name d.2.
Proof.
  revert acc. induction l as [|d l IH]; intros acc; cbn [foldl].
  - split; [tauto|]. intros [H|(d & Hd & _)]; [done|]. by apply elem_of_nil in Hd.
  - rewrite IH. unfold detect_step.
    destruct (is_associated person_box d.1 d.2) eqn:E.
    + rewrite elem_of_union, elem_of_singleton. split.
      * intros [[H|H]|(d' & Hd' & Ha & Hg)]; [tauto| |].
        -- right. exists d. rewrite elem_of_cons. tauto.
        -- right. exists d'. rewrite elem_of_cons. tauto.
      * intros [H|(d' & Hd' & Ha & Hg)]; [tauto|].
        apply elem_of_cons in Hd' as [->|Hd']; [tauto|].
        right. exists d'. tauto.
    + split.
      * intros [H|(d' & Hd' & Ha & Hg)]; [tauto|].
        right. exists d'. rewrite elem_of_cons. tauto.
      * intros [H|(d' & Hd' & Ha & Hg)]; [tauto|].
        apply elem_of_cons in Hd' as [->|Hd']; [congruence|].
        right. exists d'. tauto.
Qed.

Lemma elem_of_detected_gear (person_box : box) (ppe_boxes : list box)
    (ppe_classes : list Z) (g : string) :
  g ∈ detected_gear person_box ppe_boxes ppe_classes ↔
  ∃ d, d ∈ zip ppe_boxes ppe_classes
       ∧ is_associated person_box d.1 d.2 = true ∧ g = gear_name d.2.
Proof.
  unfold detected_gear. rewrite elem_of_detect_loop.
  split; [intros [H|H]; [by apply not_elem_of_empty in H | exact H] | by right].
Qed.

(** C4.  With no equipment detections the detected set is empty and the
    missing list is the full requirement, Vest, Gloves, Shoes, Headgear, in
    that order; the call returns a value for every person box (and the same
    holds whatever the class array, since the zip over no boxes is empty). *)
Theorem no_equipment_all_missing (person_box : box) (ppe_classes : list Z) :
  detected_gear person_box [] [] = ∅
  ∧ get_missing_gear person_box [] [] = ["Vest"; "Gloves"; "Shoes"; "Headgear"]
  ∧ detected_gear person_box [] ppe_classes = ∅
  ∧ get_missing_gear person_box [] ppe_classes
    = ["Vest"; "Gloves"; "Shoes"; "Headgear"].
Proof. repeat split. Qed.

(** ** Detections that do not count *)

Lemma zip_insert_middle (bs1 bs2 : list box) (cs1 cs2 : list Z) (b : box) (c : Z) :
  length bs1 = length cs1 →
  zip (bs1 ++ b :: bs2) (cs1 ++ c :: cs2) = zip bs1 cs1 ++ (b, c) :: zip bs2 cs2
  ∧ zip (bs1 ++ bs2) (cs1 ++ cs2) = zip bs1 cs1 ++ zip bs2 cs2.
Proof. intros Hlen. by rewrite !zip_with_app. Qed.

Lemma unassociated_skipped (person_box b : box) (c : Z)
    (bs1 bs2 : list box) (cs1 cs2 : list Z) :
  is_associated person_box b c = false → length bs1 = length cs1 →
  detected_gear person_box (bs1 ++ b :: bs2) (cs1 ++ c :: cs2)
  = detected_gear person_box (bs1 ++ bs2) (cs1 ++ cs2).
Proof.
  intros Hna Hlen. unfold detected_gear.
  destruct (zip_insert_middle bs1 bs2 cs1 cs2 b c Hlen) as [-> ->].
  rewrite !foldl_app. cbn [foldl]. unfold detect_step at 2. cbn [fst snd].
  by rewrite Hna.
Qed.

Lemma untracked_same_gear (person_box b : box) (c : Z)
    (bs1 bs2 : list box) (cs1 cs2 : list Z) :
  gear_name c ∉ tracked_gear → length bs1 = length cs1 →
  same_gear (detected_gear person_box (bs1 ++ b :: bs2) (cs1 ++ c :: cs2))
            (detected_gear person_box (bs1 ++ bs2) (cs1 ++ cs2)).
Proof.
  intros Hun Hlen g Hg. rewrite !elem_of_detected_gear.
  destruct (zip_insert_middle bs1 bs2 cs1 cs2 b c Hlen) as [-> ->].
  split; intros (d & Hd & Ha & Hgd); exists d; (split; [|done]).
  - rewrite elem_of_app, elem_of_cons in Hd. rewrite elem_of_app.
    destruct Hd as [Hd|[->|Hd]]; [tauto| |tauto].
    cbn [snd] in Hgd. subst g. contradiction.
  - rewrite elem_of_app in Hd. rewrite elem_of_app, elem_of_cons. tauto.
Qed.

(** ** Helmets *)

Lemma is_associated_helmet (person_box item_box : box) (c : Z) :
  c = 1%Z ∨ c = 2%Z →
  is_associated person_box item_box c = true ↔ in_top_third person_box item_box.
Proof.
  intros Hc. unfold is_associated, in_top_third, center_x, center_y; cbv zeta.
  rewrite (bool_decide_eq_true_2 _ Hc).
  rewrite !andb_true_iff, !QBFacts.leb_le. tauto.
Qed.

Lemma helmet_gear_name (c : Z) :
  c = 1%Z ∨ c = 2%Z → gear_name c = "Helmet" ∨ gear_name c = "Welding Helmet".
Proof. intros [->| ->]; [left|right]; reflexivity. Qed.

Lemma has_head_of_helmet (detected : gset string) (g : string) :
  g = "Helmet" ∨ g = "Welding Helmet" → g ∈ detected → has_head detected = true.
Proof.
  intros [->| ->] Hin; unfold has_head;
    rewrite (bool_decide_eq_true_2 _ Hin); [reflexivity|].
  by rewrite orb_true_r.
Qed.

(** C5.  For class Helmet (1) or Welding Helmet (2), [is_associated] holds
    exactly when the item's centre is within the person's horizontal extent and
    between the person's top edge and one third of the height below it.  A
    helmet so placed, anywhere among the detections, removes Headgear from the
    missing list.  The same helmet with its centre below the top third is not
    associated: it contributes nothing to the detected set, and alone it
    leaves Headgear missing. *)
Theorem helmet_top_third_rule (person_box item_box : box) (c : Z) :
  c = 1%Z ∨ c = 2%Z →
  (is_associated person_box item_box c = true ↔ in_top_third person_box item_box)
  ∧ (in_top_third person_box item_box →
     ∀ ppe_boxes ppe_classes, (item_box, c) ∈ zip ppe_boxes ppe_classes →
       "Headgear" ∉ get_missing_gear person_box ppe_boxes ppe_classes)
  ∧ (by1 person_box + (by2 person_box - by1 person_box) / 3 < center_y item_box →
     is_associated person_box item_box c = false
     ∧ "Headgear" ∈ get_missing_gear person_box [item_box] [c]
     ∧ ∀ bs1 cs1 bs2 cs2, length bs1 = length cs1 →
         detected_gear person_box (bs1 ++ item_box :: bs2) (cs1 ++ c :: cs2)
         = detected_gear person_box (bs1 ++ bs2) (cs1 ++ cs2)).
Proof.
  intros Hc. pose proof (is_associated_helmet person_box item_box c Hc) as Hiff.
  split; [exact Hiff|split].
  - intros Hin ppe_boxes ppe_classes Hd. unfold get_missing_gear.
    rewrite headgear_missing_iff.
    rewrite (has_head_of_helmet _ (gear_name c) (helmet_gear_name c Hc)); [done|].
    apply elem_of_detected_gear. exists (item_box, c).
    split; [exact Hd|]. split; [by apply Hiff | reflexivity].
  - intros Hbelow.
    assert (Hna : is_associated person_box item_box c = false).
    { apply not_true_is_false. intros E.
      apply Hiff in E. destruct E as (_ & _ & Hle). lra. }
    split; [exact Hna|split].
    + unfold get_missing_gear.
      change (detected_gear person_box [item_box] [c])
        with (detected_gear person_box ([] ++ item_box :: []) ([] ++ c :: [])).
      rewrite (unassociated_skipped person_box item_box c [] [] [] [] Hna eq_refl).
      apply headgear_missing_iff. reflexivity.
    + intros bs1 cs1 bs2 cs2 Hlen. by apply unassociated_skipped.
Qed.

Lemma helmet_top_third_rule_witness :
  (is_associated (Box 0 0 100 300) (Box 40 10 60 30) 1 = true
   ∧ "Headgear" ∉ get_missing_gear (Box 0 0 100 300) [Box 40 10 60 30] [1%Z])
  ∧ (is_associated (Box 0 0 100 300) (Box 40 190 60 210) 1 = false
     ∧ "Headgear" ∈ get_missing_gear (Box 0 0 100 300) [Box 40 190 60 210] [1%Z]).
Proof.
  split.
  - destruct (helmet_top_third_rule (Box 0 0 100 300) (Box 40 10 60 30) 1
                (or_introl eq_refl)) as (Hiff & Hsat & _).
    assert (Hin : in_top_third (Box 0 0 100 300) (Box 40 10 60 30))
      by (vm_compute; intuition discriminate).
    split; [by apply Hiff|].
    apply (Hsat Hin [Box 40 10 60 30] [1%Z]). apply list_elem_of_here.
  - destruct (helmet_top_third_rule (Box 0 0 100 300) (Box 40 190 60 210) 1
                (or_introl eq_refl)) as (_ & _ & Hbelow).
    assert (Hlow : by1 (Box 0 0 100 300)
                   + (by2 (Box 0 0 100 300) - by1 (Box 0 0 100 300)) / 3
                   < center_y (Box 40 190 60 210))
      by (vm_compute; reflexivity).
    destruct (Hbelow Hlow) as (Hna & Hmiss & _). by split.
Defined.

(** ** Unknown classes *)

Lemma is_associated_default (person_box item_box : box) (c : Z) :
  ¬ (1 ≤ c ≤ 6)%Z →
  is_associated person_box item_box c = center_in_box person_box item_box.
Proof.
  intros Hc. unfold is_associated; cbv zeta.
  rewrite !bool_decide_eq_false_2 by lia. reflexivity.
Qed.

(** C9.  A detection whose class id is outside 1..6 goes through the default
    rule and, when accepted, adds the label [Class_<id>], which is none of the
    six labels the missing list looks at: the missing list is the one obtained
    with that detection removed from the two arrays. *)
Theorem unknown_class_ignored (person_box item_box : box) (c : Z)
    (bs1 bs2 : list box) (cs1 cs2 : list Z) :
  ¬ (1 ≤ c ≤ 6)%Z → length bs1 = length cs1 →
  is_associated person_box item_box c = center_in_box person_box item_box
  ∧ gear_name c = class_label c
  ∧ (class_label c ∉ tracked_gear)
  ∧ get_missing_gear person_box (bs1 ++ item_box :: bs2) (cs1 ++ c :: cs2)
    = get_missing_gear person_box (bs1 ++ bs2) (cs1 ++ cs2).
Proof.
  intros Hc Hlen.
  split; [by apply is_associated_default|].
  split; [by apply class_mapping_unknown|].
  split; [apply class_label_untracked|].
  unfold get_missing_gear. apply missing_of_same_gear, untracked_same_gear.
  - by rewrite gear_name_tracked.
  - exact Hlen.
Qed.

Lemma unknown_class_ignored_witness :
  is_associated (Box 0 0 100 300) (Box 40 140 60 160) 9 = true
  ∧ gear_name 9 = "Class_9.0"
  ∧ get_missing_gear (Box 0 0 100 300)
      [Box 40 10 60 30; Box 40 140 60 160; Box 10 100 90 200] [1%Z; 9%Z; 4%Z]
    = get_missing_gear (Box 0 0 100 300)
        [Box 40 10 60 30; Box 10 100 90 200] [1%Z; 4%Z].
Proof.
  assert (Hc : ¬ (1 ≤ 9 ≤ 6)%Z) by lia.
  destruct (unknown_class_ignored (Box 0 0 100 300) (Box 40 140 60 160) 9
              [Box 40 10 60 30] [Box 10 100 90 200] [1%Z] [4%Z] Hc eq_refl)
    as (Ha & Hn & _ & Heq).
  split; [rewrite Ha; reflexivity|]. split; [rewrite Hn; reflexivity|].
  exact Heq.
Defined.

(** ** Legacy and backend missing-gear derivations *)

Lemma legacy_add_gear_spec (acc : gset string) (c : Z) :
  Legacy.add_gear acc c
  = if bool_decide (1 ≤ c ≤ 6)%Z then acc ∪ {[ gear_name c ]} else acc.
Proof.
  unfold Legacy.add_gear.
  repeat (case_bool_decide; [subst c; reflexivity|]).
  rewrite bool_decide_eq_false_2 by lia. reflexivity.
Qed.

Lemma elem_of_legacy_loop (person_box : box) (l : list (box * Z))
    (acc : gset string) (g : string) :
  g ∈ foldl (Legacy.detect_step person_box) acc l ↔
  g ∈ acc ∨ ∃ d, d ∈ l ∧ Legacy.center_inside person_box d.1 = true
                 ∧ (1 ≤ d.2 ≤ 6)%Z ∧ g = gear_name d.2.
Proof.
  revert acc. induction l as [|d l IH]; intros acc; cbn [foldl].
  - split; [tauto|]. intros [H|(d & Hd & _)]; [done|]. by apply elem_of_nil in Hd.
  - rewrite IH. unfold Legacy.detect_step. rewrite legacy_add_gear_spec.
    destruct (Legacy.center_inside person_box d.1) eqn:E;
      [case_bool_decide as Hk|].
    + rewrite elem_of_union, elem_of_singleton. split.
      * intros [[H|H]|(d' & Hd' & Ha & Hg)]; [tauto| |].
        -- right. exists d. rewrite elem_of_cons. tauto.
        -- right. exists d'. rewrite elem_of_cons. tauto.
      * intros [H|(d' & Hd' & Ha & Hr & Hg)]; [tauto|].
        apply elem_of_cons in Hd' as [->|Hd']; [tauto|].
        right. exists d'. tauto.
    + split.
      * intros [H|(d' & Hd' & Ha & Hg)]; [tauto|].
        right. exists d'. rewrite elem_of_cons. tauto.
      * intros [H|(d' & Hd' & Ha & Hr & Hg)]; [tauto|].
        apply elem_of_cons in Hd' as [->|Hd']; [contradiction|].
        right. exists d'. tauto.
    + split.
      * intros [H|(d' & Hd' & Ha & Hg)]; [tauto|].
        right. exists d'. rewrite elem_of_cons. tauto.
      * intros [H|(d' & Hd' & Ha & Hr & Hg)]; [tauto|].
        apply elem_of_cons in Hd' as [->|Hd']; [congruence|].
        right. exists d'. tauto.
Qed.

(** C8, as the code has it.  The legacy and the backend derivation return the
    same missing list on every input on which the legacy centre-inside test
    and the backend's per-class rule give the same answer for each detection
    of class 1..6; detections of other classes never matter. *)
Theorem legacy_backend_agree_when_tests_agree (person_box : box)
    (ppe_boxes : list box) (ppe_classes : list Z) :
  tests_agree person_box ppe_boxes ppe_classes →
  Legacy.get_missing_gear person_box ppe_boxes ppe_classes
  = get_missing_gear person_box ppe_boxes ppe_classes.
Proof.
  intros Hagree. unfold Legacy.get_missing_gear, get_missing_gear.
  rewrite legacy_missing_of_spec, missing_of_spec.
  apply missing_from_same_gear. intros g Hg.
  unfold Legacy.detected_gear. rewrite elem_of_legacy_loop, elem_of_detected_gear.
  split.
  - intros [H|(d & Hd & Hc & Hr & Hgd)]; [by apply not_elem_of_empty in H|].
    exists d. rewrite <- (Hagree d Hd Hr). tauto.
  - intros (d & Hd & Ha & Hgd). right. exists d.
    assert (Hr : (1 ≤ d.2 ≤ 6)%Z) by (apply gear_name_tracked; by rewrite <- Hgd).
    rewrite (Hagree d Hd Hr). tauto.
Qed.

Lemma legacy_backend_agree_when_tests_agree_witness :
  tests_agree (Box 0 0 100 300) [Box 40 10 60 30; Box 40 140 60 160] [1%Z; 9%Z]
  ∧ Legacy.get_missing_gear (Box 0 0 100 300)
      [Box 40 10 60 30; Box 40 140 60 160] [1%Z; 9%Z]
    = get_missing_gear (Box 0 0 100 300)
        [Box 40 10 60 30; Box 40 140 60 160] [1%Z; 9%Z].
Proof.
  assert (H : tests_agree (Box 0 0 100 300)
                [Box 40 10 60 30; Box 40 140 60 160] [1%Z; 9%Z]).
  { intros d Hd Hr. cbn in Hd.
    apply elem_of_cons in Hd as [->|Hd]; [reflexivity|].
    apply elem_of_cons in Hd as [->|Hd]; [cbn in Hr; lia|].
    by apply elem_of_nil in Hd. }
  split; [exact H|].
  exact (legacy_backend_agree_when_tests_agree _ _ _ H).
Defined.

(** C8, as stated, fails: a helmet whose centre is inside the person box but
    below its top third is credited by the legacy code and not by the
    backend. *)
Lemma legacy_backend_differ :
  Legacy.get_missing_gear (Box 0 0 100 300) [Box 40 190 60 210] [1%Z]
    = ["Vest"; "Gloves"; "Shoes"]
  ∧ get_missing_gear (Box 0 0 100 300) [Box 40 190 60 210] [1%Z]
    = ["Vest"; "Gloves"; "Shoes"; "Headgear"]
  ∧ Legacy.get_missing_gear (Box 0 0 100 300) [Box 40 190 60 210] [1%Z]
    ≠ get_missing_gear (Box 0 0 100 300) [Box 40 190 60 210] [1%Z].
Proof.
  split; [vm_compute; reflexivity|]. split; [vm_compute; reflexivity|].
  vm_compute. discriminate.
Qed.

(** ** The strike system *)

Lemma insort_not_nil (x : string) (l : list string) : insort x l ≠ [].
Proof. destruct l as [|y l]; cbn; [done|]. by destruct (String.leb x y). Qed.

Lemma sorted_not_nil (l : list string) : l ≠ [] → sorted l ≠ [].
Proof. destruct l as [|x l]; [done|]. intros _. apply insort_not_nil. Qed.

Lemma has_violations_false (missing_items : list string) :
  bool_decide (0 < length missing_items)%nat = false → missing_items = [].
Proof.
  intros H. apply bool_decide_eq_false_1 in H.
  destruct missing_items; [done|]. cbn in H. lia.
Qed.

Lemma update_strikes_outcome (w : worker) (missing_items : list string)
    (now cooldown : Q) :
  outcome w missing_items now cooldown
    (update_strikes w missing_items now cooldown).
Proof.
  unfold update_strikes; cbv zeta.
  destruct (bool_decide (0 < length missing_items)%nat) eqn:Hv.
  - assert (Hne : missing_items ≠ []).
    { apply bool_decide_eq_true_1 in Hv. intros ->. cbn in Hv. lia. }
    destruct (bool_decide (sorted missing_items ≠ last_violation w)) eqn:Hsig;
      cbn [andb negb].
    + apply bool_decide_eq_true_1 in Hsig.
      destruct (QB.ltb cooldown (now - last_strike_time w)) eqn:Hcd.
      * apply Accepted; [done|done|by apply QBFacts.ltb_lt].
      * apply Absorbed; [done|]. right. by apply QBFacts.ltb_ge.
    + apply bool_decide_eq_false_1 in Hsig. apply Absorbed; [done|]. left.
      destruct (decide (sorted missing_items = last_violation w)); [done|].
      contradiction.
  - cbn [andb negb]. apply Cleared. by apply has_violations_false.
Qed.

(** ** One person in the monitoring loop *)

Lemma evaluate_worker_unfold (cooldown : Q) (e : env) (pid : Z)
    (missing_items : list string) (st : monitor) :
  evaluate_worker cooldown e pid missing_items st =
  let w := default new_worker (worker_db st !! pid) in
  let r := (update_strikes w missing_items (e_now e) cooldown).1 in
  let w' := (update_strikes w missing_items (e_now e) cooldown).2 in
  (r, {| worker_db := <[pid := w']> (worker_db st);
         violation_log :=
           if r then violation_log st ++ [event_of e pid missing_items w']
           else violation_log st;
         database_file :=
           if r then save_violation (e_io_ok e) (event_of e pid missing_items w')
                       (database_file st)
           else database_file st |}).
Proof.
  unfold evaluate_worker, event_of; cbv zeta.
  destruct (worker_db st !! pid) as [w0|] eqn:E.
  - rewrite E. cbn [from_option id].
    by destruct (update_strikes w0 missing_items (e_now e) cooldown) as [[] w'].
  - rewrite lookup_insert_eq. cbn [from_option id].
    destruct (update_strikes new_worker missing_items (e_now e) cooldown)
      as [[] w']; cbn [fst snd]; by rewrite insert_insert_eq.
Qed.

Lemma evaluate_worker_rejected (cooldown : Q) (e : env) (pid : Z)
    (missing_items : list string) (st : monitor) (w : worker) :
  worker_db st !! pid = Some w →
  update_strikes w missing_items (e_now e) cooldown = (false, w) →
  evaluate_worker cooldown e pid missing_items st = (false, st).
Proof.
  intros Hw Hu. rewrite evaluate_worker_unfold; cbv zeta.
  rewrite Hw. cbn [from_option id]. rewrite Hu. cbn [fst snd].
  rewrite (insert_id _ _ _ Hw). by destruct st.
Qed.

(** C1, as the code has it.  For a non-empty missing list, a strike is
    accepted exactly when the sorted candidate signature differs from the
    stored one and strictly more than the cooldown has elapsed since the last
    accepted strike.  On acceptance the count grows by one, the signature
    becomes the candidate, the timestamp becomes [now], the call returns true
    and the monitoring loop logs one record.  On rejection the record is
    returned as it was, the call returns false, and the loop leaves the
    registry, the log and the file untouched. *)
Theorem update_strikes_accepts_iff (w : worker) (missing_items : list string)
    (now cooldown : Q) :
  missing_items ≠ [] →
  ((update_strikes w missing_items now cooldown).1 = true ↔
     sorted missing_items ≠ last_violation w
     ∧ cooldown < now - last_strike_time w)
  ∧ ((update_strikes w missing_items now cooldown).1 = true →
     (update_strikes w missing_items now cooldown).2
     = {| strikes := strikes w + 1;
          last_violation := sorted missing_items;
          last_strike_time := now |})
  ∧ ((update_strikes w missing_items now cooldown).1 = false →
     (update_strikes w missing_items now cooldown).2 = w
     ∧ ∀ e pid st, e_now e = now → worker_db st !! pid = Some w →
         evaluate_worker cooldown e pid missing_items st = (false, st))
  ∧ ((update_strikes w missing_items now cooldown).1 = true →
     ∀ e pid st, e_now e = now → worker_db st !! pid = Some w →
       violation_log (evaluate_worker cooldown e pid missing_items st).2
       = violation_log st
         ++ [record_violation (e_clock e) pid missing_items (strikes w + 1)
               (e_snapshot e)]).
Proof.
  intros Hne.
  pose proof (update_strikes_outcome w missing_items now cooldown) as Hout.
  destruct (update_strikes w missing_items now cooldown) as [r w'] eqn:Hu.
  cbn [fst snd].
  inversion Hout as [Hm Hsig Hcd | Hm | Hm Hrej]; subst.
  - split; [tauto|]. split; [done|]. split; [done|].
    intros _ e pid st Hnow Hw. rewrite evaluate_worker_unfold; cbv zeta.
    rewrite Hw. cbn [from_option id]. rewrite Hnow, Hu. reflexivity.
  - contradiction.
  - split.
    { split; [done|]. intros [Hsig Hcd]. destruct Hrej as [Hs|Hc]; [done|].
      exfalso. apply (Qlt_not_le _ _ Hcd Hc). }
    split; [done|]. split; [|done].
    intros _. split; [done|]. intros e pid st Hnow Hw.
    rewrite <- Hnow in Hu. eapply evaluate_worker_rejected; [exact Hw | exact Hu].
Qed.

Lemma update_strikes_accepts_iff_witness :
  ["Vest"; "Gloves"] ≠ ([] : list string)
  ∧ update_strikes (Worker 1 ["Vest"] 100) ["Vest"; "Gloves"] 106 default_cooldown
    = (true, Worker 2 ["Gloves"; "Vest"] 106)
  ∧ update_strikes (Worker 1 ["Vest"] 100) ["Vest"; "Gloves"] 103 default_cooldown
    = (false, Worker 1 ["Vest"] 100).
Proof.
  assert (Hne : ["Vest"; "Gloves"] ≠ ([] : list string)) by discriminate.
  split; [exact Hne|]. split.
  - destruct (update_strikes_accepts_iff (Worker 1 ["Vest"] 100)
                ["Vest"; "Gloves"] 106 default_cooldown Hne) as (Hiff & Hacc & _).
    assert (Hr : (update_strikes (Worker 1 ["Vest"] 100) ["Vest"; "Gloves"] 106
                    default_cooldown).1 = true).
    { apply Hiff. split; [vm_compute; discriminate | vm_compute; reflexivity]. }
    rewrite (surjective_pairing (update_strikes _ _ _ _)), Hr, (Hacc Hr).
    reflexivity.
  - destruct (update_strikes_accepts_iff (Worker 1 ["Vest"] 100)
                ["Vest"; "Gloves"] 103 default_cooldown Hne) as (Hiff & _ & Hrej & _).
    assert (Hr : (update_strikes (Worker 1 ["Vest"] 100) ["Vest"; "Gloves"] 103
                    default_cooldown).1 = false).
    { apply not_true_is_false. intros Ht. apply Hiff in Ht as [_ Hcd].
      vm_compute in Hcd. discriminate Hcd. }
    rewrite (surjective_pairing (update_strikes _ _ _ _)), Hr.
    by rewrite (proj1 (Hrej Hr)).
Defined.

(** C1, as stated, fails at the boundary: exactly the cooldown (5 seconds)
    has elapsed and the signature has changed, yet no strike is accepted. *)
Lemma strike_rejected_at_exact_cooldown :
  ["Gloves"] ≠ ([] : list string)
  ∧ sorted ["Gloves"] ≠ last_violation (Worker 1 ["Vest"] 100)
  ∧ default_cooldown <= 105 - last_strike_time (Worker 1 ["Vest"] 100)
  ∧ update_strikes (Worker 1 ["Vest"] 100) ["Gloves"] 105 default_cooldown
    = (false, Worker 1 ["Vest"] 100).
Proof.
  split; [discriminate|]. split; [vm_compute; discriminate|].
  split; [vm_compute; discriminate|]. vm_compute. reflexivity.
Qed.

(** C2, as the code has it.  A tick with an empty missing list returns false
    and only clears the stored signature: count and timestamp stay.  After it,
    any non-empty missing list, the pre-clearance signature included, is
    accepted exactly when strictly more than [cooldown] has passed since the
    last accepted strike, and absorbed (record unchanged) when no more than
    [cooldown] has passed; without the clearing tick the pre-clearance
    signature would have been absorbed as unchanged whatever the clock. *)
Theorem empty_missing_clears_signature (w : worker) (now cooldown : Q)
    (missing_items : list string) (later : Q) :
  update_strikes w [] now cooldown
  = (false, {| strikes := strikes w;
               last_violation := [];
               last_strike_time := last_strike_time w |})
  ∧ (missing_items ≠ [] → cooldown < later - last_strike_time w →
     update_strikes (update_strikes w [] now cooldown).2 missing_items later cooldown
     = (true, {| strikes := strikes w + 1;
                 last_violation := sorted missing_items;
                 last_strike_time := later |}))
  ∧ (missing_items ≠ [] → later - last_strike_time w <= cooldown →
     update_strikes (update_strikes w [] now cooldown).2 missing_items later cooldown
     = (false, (update_strikes w [] now cooldown).2))
  ∧ (missing_items ≠ [] → sorted missing_items = last_violation w →
     update_strikes w missing_items later cooldown = (false, w)).
Proof.
  split; [reflexivity|].
  set (w0 := {| strikes := strikes w; last_violation := [];
                last_strike_time := last_strike_time w |}).
  change (update_strikes w [] now cooldown).2 with w0.
  pose proof (update_strikes_outcome w0 missing_items later cooldown) as Hout.
  split; [|split].
  - intros Hne Hcd.
    inversion Hout as [Hm Hsig Hc Heq | Hm Heq | Hm Hrej Heq].
    + reflexivity.
    + contradiction.
    + exfalso. destruct Hrej as [Hs|Hc].
      * by apply (sorted_not_nil _ Hne).
      * apply (Qlt_not_le _ _ Hcd Hc).
  - intros Hne Hwin.
    inversion Hout as [Hm Hsig Hc Heq | Hm Heq | Hm Hrej Heq].
    + exfalso. apply (Qlt_not_le _ _ Hc Hwin).
    + contradiction.
    + reflexivity.
  - intros Hne Hsame. clear Hout.
    pose proof (update_strikes_outcome w missing_items later cooldown) as Hout.
    inversion Hout as [Hm Hsig Hc Heq | Hm Heq | Hm Hrej Heq].
    + contradiction.
    + contradiction.
    + reflexivity.
Qed.

Lemma empty_missing_clears_signature_witness :
  update_strikes (Worker 2 ["Vest"] 100) [] 103 default_cooldown
  = (false, Worker 2 [] 100)
  ∧ update_strikes (Worker 2 [] 100) ["Vest"] 106 default_cooldown
    = (true, Worker 3 ["Vest"] 106)
  ∧ update_strikes (Worker 2 [] 100) ["Vest"] 104 default_cooldown
    = (false, Worker 2 [] 100)
  ∧ update_strikes (Worker 2 ["Vest"] 100) ["Vest"] 106 default_cooldown
    = (false, Worker 2 ["Vest"] 100).
Proof.
  destruct (empty_missing_clears_signature (Worker 2 ["Vest"] 100) 103
              default_cooldown ["Vest"] 106) as (Hclear & Hnew & _ & Hsame).
  destruct (empty_missing_clears_signature (Worker 2 ["Vest"] 100) 103
              default_cooldown ["Vest"] 104) as (_ & _ & Hwin & _).
  assert (Hne : ["Vest"] ≠ ([] : list string)) by discriminate.
  assert (Hcd : default_cooldown < 106 - last_strike_time (Worker 2 ["Vest"] 100))
    by (vm_compute; reflexivity).
  assert (Hin : 104 - last_strike_time (Worker 2 ["Vest"] 100) <= default_cooldown)
    by (vm_compute; discriminate).
  exact (conj Hclear (conj (Hnew Hne Hcd) (conj (Hwin Hne Hin) (Hsame Hne eq_refl)))).
Defined.

(** C2, as stated, fails at the boundary: after the clearing tick the
    pre-clearance signature comes back when exactly the cooldown (5 seconds)
    has elapsed since the last accepted strike, and no strike is accepted. *)
Lemma cleared_signature_rejected_at_exact_cooldown :
  update_strikes (Worker 2 ["Vest"] 100) [] 103 default_cooldown
  = (false, Worker 2 [] 100)
  ∧ ["Vest"] ≠ ([] : list string)
  ∧ sorted ["Vest"] = last_violation (Worker 2 ["Vest"] 100)
  ∧ default_cooldown <= 105 - last_strike_time (Worker 2 [] 100)
  ∧ update_strikes (Worker 2 [] 100) ["Vest"] 105 default_cooldown
    = (false, Worker 2 [] 100).
Proof.
  split; [vm_compute; reflexivity|]. split; [discriminate|].
  split; [vm_compute; reflexivity|]. split; [vm_compute; discriminate|].
  vm_compute. reflexivity.
Qed.

(** ** Strike count over time *)

Lemma update_strikes_count (w : worker) (missing_items : list string)
    (now cooldown : Q) :
  strikes (update_strikes w missing_items now cooldown).2
  = (strikes w + if (update_strikes w missing_items now cooldown).1 then 1 else 0)%Z.
Proof.
  pose proof (update_strikes_outcome w missing_items now cooldown) as Hout.
  inversion Hout; cbn [fst snd strikes]; lia.
Qed.

Lemma accepted_cons (r : bool) (rs : list bool) :
  accepted (r :: rs) = ((if r then 1 else 0) + accepted rs)%Z.
Proof. unfold accepted. destruct r; cbn [count_occ]; destruct (bool_dec _ _); try done; lia. Qed.

Lemma accepted_nonneg (rs : list bool) : (0 ≤ accepted rs)%Z.
Proof. unfold accepted. lia. Qed.

Lemma run_strikes_count (cooldown : Q) (calls : list (list string * Q)) (w : worker) :
  strikes (run_strikes cooldown w calls).2
  = (strikes w + accepted (run_strikes cooldown w calls).1)%Z
  ∧ length (run_strikes cooldown w calls).1 = length calls.
Proof.
  revert w. induction calls as [|[missing_items now] rest IH]; intros w.
  - cbn. split; [unfold accepted; cbn; lia | reflexivity].
  - cbn [run_strikes].
    pose proof (update_strikes_count w missing_items now cooldown) as Hstep.
    destruct (update_strikes w missing_items now cooldown) as [r w'].
    cbn [fst snd] in Hstep.
    destruct (IH w') as [Hcount Hlen].
    destruct (run_strikes cooldown w' rest) as [rs w''].
    cbn [fst snd length] in *. rewrite accepted_cons. split; lia.
Qed.

(** C3.  One call leaves the strike count as it is or adds exactly one, the
    latter exactly when it returns true; over any sequence of calls the final
    count is the initial count plus the number of accepted strikes, hence never
    below the initial count; [reset_worker] is what sets it to 0. *)
Theorem strike_count_monotone (cooldown : Q) (w : worker)
    (calls : list (list string * Q)) (missing_items : list string) (now : Q) :
  strikes (update_strikes w missing_items now cooldown).2
  = (strikes w + if (update_strikes w missing_items now cooldown).1 then 1 else 0)%Z
  ∧ strikes (run_strikes cooldown w calls).2
    = (strikes w + accepted (run_strikes cooldown w calls).1)%Z
  ∧ (strikes w ≤ strikes (run_strikes cooldown w calls).2)%Z
  ∧ length (run_strikes cooldown w calls).1 = length calls
  ∧ strikes (reset_worker (run_strikes cooldown w calls).2) = 0%Z.
Proof.
  destruct (run_strikes_count cooldown calls w) as [Hcount Hlen].
  pose proof (accepted_nonneg (run_strikes cooldown w calls).1).
  split; [apply update_strikes_count|].
  split; [exact Hcount|]. split; [lia|]. split; [exact Hlen|reflexivity].
Qed.

(** The scenario of the spec: track 7, cooldown 5, ticks at t = 0, 2, 6, 7
    (shifted by 100 so that the first tick is past the initial cooldown). *)
Example strike_scenario :
  run_strikes default_cooldown new_worker
    [(["Vest"], 100); (["Vest"], 102); (["Gloves"; "Vest"], 106); ([], 107)]
  = ([true; false; true; false], Worker 2 [] 106).
Proof. vm_compute. reflexivity. Qed.

(** ** Violation events *)

Lemma update_strikes_true_nonempty (w : worker) (missing_items : list string)
    (now cooldown : Q) :
  (update_strikes w missing_items now cooldown).1 = true → missing_items ≠ [].
Proof.
  pose proof (update_strikes_outcome w missing_items now cooldown) as Hout.
  inversion Hout; cbn [fst]; intros Hr; done.
Qed.

(** C6.  [update_strikes] returns true only for a non-empty missing list; the
    monitoring loop returns that same flag, and it extends the violation log
    or touches the CSV file only when the flag is true, hence only for a
    non-empty missing list; when it does, the logged record is the one built
    by [record_violation] from that missing list. *)
Theorem violation_only_when_missing (cooldown : Q) (e : env) (pid : Z)
    (missing_items : list string) (st : monitor) :
  let w := default new_worker (worker_db st !! pid) in
  let r := (update_strikes w missing_items (e_now e) cooldown).1 in
  let st' := (evaluate_worker cooldown e pid missing_items st).2 in
  (r = true → missing_items ≠ [])
  ∧ (evaluate_worker cooldown e pid missing_items st).1 = r
  ∧ (violation_log st' ≠ violation_log st → r = true ∧ missing_items ≠ [])
  ∧ (database_file st' ≠ database_file st → r = true ∧ missing_items ≠ [])
  ∧ (r = true →
     violation_log st'
     = violation_log st
       ++ [record_violation (e_clock e) pid missing_items (strikes w + 1)
             (e_snapshot e)])
  ∧ (r = false →
     violation_log st' = violation_log st ∧ database_file st' = database_file st).
Proof.
  cbv zeta. rewrite evaluate_worker_unfold; cbv zeta. cbn [fst snd].
  set (w := default new_worker (worker_db st !! pid)).
  pose proof (update_strikes_true_nonempty w missing_items (e_now e) cooldown) as Hne.
  pose proof (update_strikes_count w missing_items (e_now e) cooldown) as Hcount.
  destruct (update_strikes w missing_items (e_now e) cooldown) as [r w'].
  cbn [fst snd violation_log database_file] in *.
  split; [exact Hne|]. split; [reflexivity|].
  destruct r.
  - repeat split; try (by apply Hne); try discriminate.
    intros _. unfold event_of. by rewrite Hcount.
  - repeat split; try done.
Qed.

Lemma violation_only_when_missing_witness :
  process_person default_cooldown (Env 1000 "2024-01-01 00:00:00" None true) 7
    (Box 0 0 100 300) [] [] (Monitor ∅ [] [])
  = (true,
     Monitor {[ 7%Z := Worker 1 ["Gloves"; "Headgear"; "Shoes"; "Vest"] 1000 ]}
       [Violation "2024-01-01 00:00:00" "Worker-7"
          "Vest, Gloves, Shoes, Headgear" 1 ""]
       [Violation "2024-01-01 00:00:00" "Worker-7"
          "Vest, Gloves, Shoes, Headgear" 1 ""])
  ∧ get_missing_gear (Box 0 0 100 300) [] [] ≠ []
  ∧ (evaluate_worker default_cooldown (Env 1000 "2024-01-01 00:00:00" None true) 7
       [] (Monitor ∅ [] [])).2
    = Monitor {[ 7%Z := new_worker ]} [] [].
Proof.
  pose proof (violation_only_when_missing default_cooldown
                (Env 1000 "2024-01-01 00:00:00" None true) 7
                (get_missing_gear (Box 0 0 100 300) [] [])
                (Monitor ∅ [] [])) as H.
  cbv zeta in H. destruct H as (Hne & _ & Hlog & _).
  split; [vm_compute; reflexivity|]. split; [|vm_compute; reflexivity].
  apply Hlog. vm_compute. discriminate.
Defined.

(** ** Fired status *)

(** C7.  [is_fired] is the comparison of the strike count with the maximum
    and nothing else; the flag reported by [get_worker_status] is that same
    comparison on the record's count (the record stores no flag); with the
    default maximum 15, count 15 is fired and count 14 is not. *)
Theorem fired_is_derived (w : worker) (missing_items : list string)
    (strikes' max_strikes : Z) :
  (is_fired strikes' max_strikes = true ↔ (max_strikes ≤ strikes')%Z)
  ∧ (get_worker_status w missing_items max_strikes).2
    = is_fired (strikes w) max_strikes
  ∧ is_fired 15 default_max_strikes = true
  ∧ is_fired 14 default_max_strikes = false
  ∧ (get_worker_status (Worker 15 [] 0) missing_items default_max_strikes).2 = true
  ∧ (get_worker_status (Worker 14 [] 0) missing_items default_max_strikes).2 = false.
Proof.
  split; [apply bool_decide_eq_true|].
  split.
  - unfold get_worker_status, is_fired; cbv zeta.
    case_bool_decide; [reflexivity|]. by case_bool_decide.
  - split; [reflexivity|]. split; [reflexivity|]. split; [reflexivity|].
    unfold get_worker_status; cbv zeta.
    rewrite (bool_decide_eq_false_2 (default_max_strikes ≤ _)%Z)
      by (unfold default_max_strikes; cbn; lia).
    by case_bool_decide.
Qed.

(* ===================================================================== *)
(** * Further properties of the geometry and the association rules *)
(* ===================================================================== *)

(** Boolean comparisons to propositions, everywhere. *)
Ltac qprop :=
  repeat match goal with
  | H : _ && _ = true |- _ => apply andb_true_iff in H; destruct H
  | H : QB.leb _ _ = true |- _ => apply QBFacts.leb_le in H
  | H : QB.ltb _ _ = true |- _ => apply QBFacts.ltb_lt in H
  | H : QB.leb _ _ = false |- _ => apply QBFacts.leb_gt in H
  | H : QB.ltb _ _ = false |- _ => apply QBFacts.ltb_ge in H
  | |- _ && _ = true => apply andb_true_iff; split
  | |- QB.leb _ _ = true => apply QBFacts.leb_le
  | |- QB.ltb _ _ = true => apply QBFacts.ltb_lt
  end.

Lemma clip_id (v : Q) : 0 <= v -> Qmax 0 v == v.
Proof. intros H. apply Q.max_r. exact H. Qed.

Lemma clip_zero (v : Q) : v <= 0 -> Qmax 0 v == 0.
Proof. intros H. apply Q.max_l. exact H. Qed.

Lemma intersection_sym (box1 box2 : box) :
  intersection box1 box2 == intersection box2 box1.
Proof.
  unfold intersection; cbv zeta.
  rewrite (Q.max_comm (bx1 box1)), (Q.max_comm (by1 box1)),
    (Q.min_comm (bx2 box1)), (Q.min_comm (by2 box1)).
  reflexivity.
Qed.

Lemma union_sym (box1 box2 : box) : union box1 box2 == union box2 box1.
Proof. unfold union. rewrite (intersection_sym box1 box2). ring. Qed.

Lemma calculate_iou_value (box1 box2 : box) (i u : Q) :
  intersection box1 box2 == i -> union box1 box2 == u -> 0 < u ->
  calculate_iou box1 box2 == i / u.
Proof.
  intros Hi Hu Hpos. unfold calculate_iou.
  assert (E : QB.ltb 0 (union box1 box2) = true)
    by (apply QBFacts.ltb_lt; rewrite Hu; exact Hpos).
  rewrite E, Hi, Hu. reflexivity.
Qed.

Lemma calculate_iou_no_overlap (box1 box2 : box) :
  intersection box1 box2 == 0 -> calculate_iou box1 box2 == 0.
Proof.
  intros Hi. unfold calculate_iou.
  destruct (QB.ltb 0 (union box1 box2)); [|reflexivity].
  rewrite Hi. unfold Qdiv. ring.
Qed.

(** X1.  Intersection over union does not depend on the order of the two
    boxes. *)
Theorem calculate_iou_sym (box1 box2 : box) :
  calculate_iou box1 box2 == calculate_iou box2 box1.
Proof.
  unfold calculate_iou.
  pose proof (union_sym box1 box2) as Hu.
  pose proof (intersection_sym box1 box2) as Hi.
  destruct (QB.ltb 0 (union box1 box2)) eqn:E1;
    destruct (QB.ltb 0 (union box2 box1)) eqn:E2; qprop.
  - rewrite Hi, Hu. reflexivity.
  - exfalso. lra.
  - exfalso. lra.
  - reflexivity.
Qed.

(** X2.  A well-formed box against itself: the result is 1 when the box has
    positive area and 0 when it is degenerate. *)
Theorem calculate_iou_self (b : box) :
  well_formed b ->
  (0 < area b -> calculate_iou b b == 1)
  /\ (area b == 0 -> calculate_iou b b == 0).
Proof.
  intros [Hx Hy].
  assert (Hi : intersection b b == area b).
  { unfold intersection, area; cbv zeta.
    rewrite !Q.max_id, !Q.min_id, !clip_id by lra. reflexivity. }
  assert (Hu : union b b == area b) by (unfold union; rewrite Hi; ring).
  split.
  - intros Hpos. rewrite (calculate_iou_value b b _ _ Hi Hu Hpos).
    field. lra.
  - intros Hz. apply calculate_iou_no_overlap. rewrite Hi. exact Hz.
Qed.

Lemma calculate_iou_self_witness :
  well_formed (Box 0 0 10 20) /\ calculate_iou (Box 0 0 10 20) (Box 0 0 10 20) == 1
  /\ calculate_iou (Box 3 4 3 9) (Box 3 4 3 9) == 0.
Proof.
  assert (W1 : well_formed (Box 0 0 10 20)) by (split; simpl; lra).
  assert (W2 : well_formed (Box 3 4 3 9)) by (split; simpl; lra).
  assert (A1 : 0 < area (Box 0 0 10 20)) by (vm_compute; reflexivity).
  assert (A2 : area (Box 3 4 3 9) == 0) by (vm_compute; reflexivity).
  exact (conj W1 (conj (proj1 (calculate_iou_self _ W1) A1)
                       (proj2 (calculate_iou_self _ W2) A2))).
Defined.

Lemma intersection_apart (box1 box2 : box) :
  apart box1 box2 -> intersection box1 box2 == 0.
Proof.
  intros Hap. unfold intersection; cbv zeta.
  pose proof (Q.le_min_l (bx2 box1) (bx2 box2)).
  pose proof (Q.le_min_r (bx2 box1) (bx2 box2)).
  pose proof (Q.le_max_l (bx1 box1) (bx1 box2)).
  pose proof (Q.le_max_r (bx1 box1) (bx1 box2)).
  pose proof (Q.le_min_l (by2 box1) (by2 box2)).
  pose proof (Q.le_min_r (by2 box1) (by2 box2)).
  pose proof (Q.le_max_l (by1 box1) (by1 box2)).
  pose proof (Q.le_max_r (by1 box1) (by1 box2)).
  destruct Hap as [Hap|[Hap|[Hap|Hap]]].
  - rewrite (clip_zero (Qmin (bx2 box1) (bx2 box2) - _)) by lra. ring.
  - rewrite (clip_zero (Qmin (bx2 box1) (bx2 box2) - _)) by lra. ring.
  - rewrite (clip_zero (Qmin (by2 box1) (by2 box2) - _)) by lra. ring.
  - rewrite (clip_zero (Qmin (by2 box1) (by2 box2) - _)) by lra. ring.
Qed.

(** X3.  Boxes that lie apart have intersection over union 0, so a glove box
    apart from the person box is never associated with that person. *)
Theorem apart_boxes_not_associated (person_box item_box : box) :
  apart person_box item_box ->
  calculate_iou person_box item_box == 0
  /\ is_associated person_box item_box 5 = false.
Proof.
  intros Hap.
  assert (Hz : calculate_iou person_box item_box == 0)
    by (apply calculate_iou_no_overlap, intersection_apart, Hap).
  split; [exact Hz|].
  change (QB.ltb (1 # 10) (calculate_iou person_box item_box) = false).
  apply QBFacts.ltb_ge. rewrite Hz. lra.
Qed.

Lemma apart_boxes_not_associated_witness :
  apart (Box 0 0 100 300) (Box 100 50 130 90)
  /\ is_associated (Box 0 0 100 300) (Box 100 50 130 90) 5 = false.
Proof.
  assert (H : apart (Box 0 0 100 300) (Box 100 50 130 90))
    by (left; simpl; lra).
  exact (conj H (proj2 (apart_boxes_not_associated _ _ H))).
Defined.

Lemma intersection_inside (person_box item_box : box) :
  well_formed item_box -> inside item_box person_box ->
  intersection person_box item_box == area item_box.
Proof.
  intros [Hx Hy] (H1 & H2 & H3 & H4). unfold intersection, area; cbv zeta.
  rewrite (Q.max_r (bx1 person_box) (bx1 item_box)) by exact H1.
  rewrite (Q.max_r (by1 person_box) (by1 item_box)) by exact H3.
  rewrite (Q.min_r (bx2 person_box) (bx2 item_box)) by exact H2.
  rewrite (Q.min_r (by2 person_box) (by2 item_box)) by exact H4.
  rewrite !clip_id by lra. reflexivity.
Qed.

(** X4.  For a glove box lying within a person box of positive area the
    intersection over union is the ratio of the two areas, so the glove is
    associated exactly when its area exceeds one tenth of the person's:
    small gloves inside the person box are not credited. *)
Theorem glove_inside_person (person_box item_box : box) :
  well_formed item_box -> inside item_box person_box -> 0 < area person_box ->
  calculate_iou person_box item_box == area item_box / area person_box
  /\ (is_associated person_box item_box 5 = true
      <-> area person_box < 10 * area item_box).
Proof.
  intros Hwf Hin Hpos.
  pose proof (intersection_inside person_box item_box Hwf Hin) as Hi.
  assert (Hu : union person_box item_box == area person_box)
    by (unfold union; rewrite Hi; ring).
  pose proof (calculate_iou_value _ _ _ _ Hi Hu Hpos) as Hv.
  split; [exact Hv|].
  change (is_associated person_box item_box 5)
    with (QB.ltb (1 # 10) (calculate_iou person_box item_box)).
  rewrite QBFacts.ltb_lt, Hv. split.
  - intros H. apply (Qmult_lt_r _ _ _ Hpos) in H.
    assert (E : area item_box / area person_box * area person_box == area item_box)
      by (field; lra).
    rewrite E in H. lra.
  - intros H. apply Qlt_shift_div_l; [exact Hpos|]. lra.
Qed.

Lemma glove_inside_person_witness :
  is_associated (Box 0 0 100 300) (Box 10 100 30 140) 5 = false
  /\ is_associated (Box 0 0 100 300) (Box 0 0 100 40) 5 = true.
Proof.
  assert (P : 0 < area (Box 0 0 100 300)) by (vm_compute; reflexivity).
  assert (W1 : well_formed (Box 10 100 30 140)) by (split; simpl; lra).
  assert (I1 : inside (Box 10 100 30 140) (Box 0 0 100 300))
    by (repeat split; simpl; lra).
  assert (W2 : well_formed (Box 0 0 100 40)) by (split; simpl; lra).
  assert (I2 : inside (Box 0 0 100 40) (Box 0 0 100 300))
    by (repeat split; simpl; lra).
  destruct (glove_inside_person _ _ W1 I1 P) as [_ H1].
  destruct (glove_inside_person _ _ W2 I2 P) as [_ H2].
  split.
  - apply not_true_is_false. intros E. apply H1 in E.
    vm_compute in E. discriminate E.
  - apply H2. vm_compute. reflexivity.
Defined.

Lemma inv3 : / 3 == 1 # 3.
Proof. reflexivity. Qed.

Lemma inv5 : / 5 == 1 # 5.
Proof. reflexivity. Qed.

(** Linear arithmetic with the divisions by 3 and by 5 of the band rules. *)
Ltac qlra := unfold Qdiv in *; rewrite ?inv3, ?inv5 in *; lra.

Lemma is_associated_band_cases (person_box item_box : box) (c : Z) (P : bool -> Prop) :
  band_class c ->
  (forall lo hi : Q,
      (lo = by1 person_box
       /\ hi = by1 person_box + (by2 person_box - by1 person_box) / 3
       /\ (c = 1%Z \/ c = 2%Z)
       \/ lo = by2 person_box - (by2 person_box - by1 person_box) / 5
          /\ hi = by2 person_box /\ c = 6%Z
       \/ lo = by1 person_box
          /\ hi = by1 person_box + (by2 person_box - by1 person_box) * (4 # 10)
          /\ c = 3%Z
       \/ lo = by1 person_box + (by2 person_box - by1 person_box) * (2 # 10)
          /\ hi = by1 person_box + (by2 person_box - by1 person_box) * (7 # 10)
          /\ c = 4%Z) ->
      P ((QB.leb lo (center_y item_box) && QB.leb (center_y item_box) hi)
         && (QB.leb (bx1 person_box) (center_x item_box)
             && QB.leb (center_x item_box) (bx2 person_box)))) ->
  P (is_associated person_box item_box c).
Proof.
  intros Hc HP.
  destruct Hc as [->|[->|[->|[->| ->]]]];
    (eapply (eq_ind _ P); [eapply HP | reflexivity]); tauto.
Qed.

(** X5.  Every band rule is at least as strict as the default rule: when the
    person box is not inverted vertically, an item associated under the rule of
    class 1, 2, 3, 4 or 6 has its centre inside the person box. *)
Theorem band_rule_inside_person (person_box item_box : box) (c : Z) :
  band_class c -> by1 person_box <= by2 person_box ->
  is_associated person_box item_box c = true ->
  center_in_box person_box item_box = true.
Proof.
  intros Hc Hh.
  apply (is_associated_band_cases person_box item_box c
           (fun a => a = true -> center_in_box person_box item_box = true) Hc).
  intros lo hi Hband Ha. unfold center_in_box. qprop; try assumption.
  - destruct Hband as [(-> & _)|[(-> & _)|[(-> & _)|(-> & _)]]]; qlra.
  - destruct Hband as [(_ & -> & _)|[(_ & -> & _)|[(_ & -> & _)|(_ & -> & _)]]]; qlra.
Qed.

Lemma band_rule_inside_person_witness :
  is_associated (Box 0 0 100 300) (Box 10 100 90 200) 4 = true
  /\ center_in_box (Box 0 0 100 300) (Box 10 100 90 200) = true.
Proof.
  assert (Hc : band_class 4) by (unfold band_class; tauto).
  assert (Hh : by1 (Box 0 0 100 300) <= by2 (Box 0 0 100 300)) by (simpl; lra).
  assert (Ha : is_associated (Box 0 0 100 300) (Box 10 100 90 200) 4 = true)
    by reflexivity.
  exact (conj Ha (band_rule_inside_person _ _ 4 Hc Hh Ha)).
Defined.

(** X6.  A person box that is inverted (bottom above top, or right edge left
    of the left edge) gets no item by any band rule nor by the default rule;
    only the glove rule does not look at the centre. *)
Theorem inverted_person_box_no_association (person_box item_box : box) (c : Z) :
  c <> 5%Z ->
  by2 person_box < by1 person_box \/ bx2 person_box < bx1 person_box ->
  is_associated person_box item_box c = false.
Proof.
  intros Hc Hinv. apply not_true_is_false. unfold not.
  destruct (decide (band_class c)) as [Hb|Hb].
  - apply (is_associated_band_cases person_box item_box c
             (fun a => a = true -> False) Hb).
    intros lo hi Hband Ha. qprop.
    destruct Hinv as [Hinv|Hinv]; [|lra].
    destruct Hband as [(-> & -> & _)|[(-> & -> & _)|[(-> & -> & _)|(-> & -> & _)]]];
      qlra.
  - assert (Hun : ¬ (1 ≤ c ≤ 6)%Z) by (unfold band_class in Hb; lia).
    rewrite (is_associated_default _ _ _ Hun). unfold center_in_box.
    intros Ha. qprop. destruct Hinv; qlra.
Qed.

Lemma inverted_person_box_no_association_witness :
  is_associated (Box 0 300 100 0) (Box 40 10 60 30) 1 = false
  /\ is_associated (Box 100 0 0 300) (Box 40 10 60 30) 9 = false.
Proof.
  split.
  - apply inverted_person_box_no_association; [lia|]. left. simpl. qlra.
  - apply inverted_person_box_no_association; [lia|]. right. simpl. qlra.
Defined.

Lemma is_associated_bands (person_box item_box : box) :
  let h := by2 person_box - by1 person_box in
  is_associated person_box item_box 1
  = in_band person_box item_box (by1 person_box) (by1 person_box + h / 3)
  /\ is_associated person_box item_box 3
     = in_band person_box item_box (by1 person_box) (by1 person_box + h * (4 # 10))
  /\ is_associated person_box item_box 4
     = in_band person_box item_box (by1 person_box + h * (2 # 10))
         (by1 person_box + h * (7 # 10))
  /\ is_associated person_box item_box 6
     = in_band person_box item_box (by2 person_box - h / 5) (by2 person_box).
Proof. repeat split. Qed.

(** X7.  The bands are consistent with one another: whatever is accepted as
    a helmet would also be accepted as goggles (the top third lies in the top
    four tenths), and on a person box of positive height no item is accepted
    both as shoes and as a vest, nor both as shoes and as a helmet. *)
Theorem bands_consistent (person_box item_box : box) :
  (is_associated person_box item_box 1 = true ->
   is_associated person_box item_box 3 = true)
  /\ (by1 person_box < by2 person_box ->
      is_associated person_box item_box 6 = true ->
      is_associated person_box item_box 4 = false
      /\ is_associated person_box item_box 1 = false).
Proof.
  destruct (is_associated_bands person_box item_box) as (-> & -> & -> & ->).
  unfold in_band. split.
  - intros Ha. qprop; try assumption; qlra.
  - intros Hh Ha. qprop.
    split; apply not_true_is_false; intros Hb; qprop; qlra.
Qed.

Lemma bands_consistent_witness :
  is_associated (Box 0 0 100 300) (Box 40 10 60 30) 3 = true
  /\ is_associated (Box 0 0 100 300) (Box 30 270 70 290) 4 = false.
Proof.
  destruct (bands_consistent (Box 0 0 100 300) (Box 40 10 60 30)) as [H1 _].
  destruct (bands_consistent (Box 0 0 100 300) (Box 30 270 70 290)) as [_ H2].
  split; [apply H1; reflexivity|].
  apply H2; [vm_compute; reflexivity | reflexivity].
Defined.

(* ===================================================================== *)
(** * Further properties of the missing-gear derivation *)
(* ===================================================================== *)

Lemma missing_from_policy (v g s h : bool) :
  missing_from v g s h `sublist_of` policy.
Proof. destruct v, g, s, h; cbn; repeat constructor. Qed.

Lemma policy_NoDup : NoDup policy.
Proof.
  unfold policy. repeat (apply NoDup_cons; split);
    rewrite ?elem_of_cons, ?elem_of_nil; try apply NoDup_nil_2;
    intros Hx; repeat (destruct Hx as [Hx|Hx]; [discriminate Hx|]); exact Hx.
Qed.

(** X8.  Whatever the detections, the missing list of the backend and of the
    legacy code is a sub-list of Vest, Gloves, Shoes, Headgear in that order:
    no other label, no repetition, at most four entries. *)
Theorem missing_list_within_policy (person_box : box) (ppe_boxes : list box)
    (ppe_classes : list Z) :
  get_missing_gear person_box ppe_boxes ppe_classes `sublist_of` policy
  ∧ NoDup (get_missing_gear person_box ppe_boxes ppe_classes)
  ∧ length (get_missing_gear person_box ppe_boxes ppe_classes) ≤ 4
  ∧ Legacy.get_missing_gear person_box ppe_boxes ppe_classes `sublist_of` policy
  ∧ NoDup (Legacy.get_missing_gear person_box ppe_boxes ppe_classes).
Proof.
  unfold get_missing_gear, Legacy.get_missing_gear.
  rewrite missing_of_spec, legacy_missing_of_spec.
  split; [apply missing_from_policy|].
  split; [eapply sublist_NoDup; [apply policy_NoDup|apply missing_from_policy]|].
  split; [apply (sublist_length _ policy), missing_from_policy|].
  split; [apply missing_from_policy|].
  eapply sublist_NoDup; [apply policy_NoDup|apply missing_from_policy].
Qed.

(** X9.  The order of the detections does not matter: two pairs of arrays
    whose zipped detections are permutations of each other give the same
    detected set and the same missing list. *)
Theorem detection_order_irrelevant (person_box : box)
    (bs1 bs2 : list box) (cs1 cs2 : list Z) :
  zip bs1 cs1 ≡ₚ zip bs2 cs2 →
  detected_gear person_box bs1 cs1 = detected_gear person_box bs2 cs2
  ∧ get_missing_gear person_box bs1 cs1 = get_missing_gear person_box bs2 cs2.
Proof.
  intros Hperm.
  assert (Hset : detected_gear person_box bs1 cs1 = detected_gear person_box bs2 cs2).
  { apply set_eq. intros g. rewrite !elem_of_detected_gear.
    split; intros (d & Hd & Ha); exists d; (split; [|exact Ha]).
    - by rewrite <- Hperm.
    - by rewrite Hperm. }
  split; [exact Hset|]. unfold get_missing_gear. by rewrite Hset.
Qed.

Lemma detection_order_irrelevant_witness :
  get_missing_gear (Box 0 0 100 300)
    [Box 40 10 60 30; Box 10 100 90 200] [1%Z; 4%Z]
  = get_missing_gear (Box 0 0 100 300)
      [Box 10 100 90 200; Box 40 10 60 30] [4%Z; 1%Z].
Proof.
  apply detection_order_irrelevant. cbn. apply perm_swap.
Defined.

Lemma missing_from_mono (v g s h v' g' s' h' : bool) :
  (v = true → v' = true) → (g = true → g' = true) →
  (s = true → s' = true) → (h = true → h' = true) →
  missing_from v' g' s' h' `sublist_of` missing_from v g s h.
Proof.
  intros Hv Hg Hs Hh.
  destruct v; [rewrite (Hv eq_refl)|]; (destruct g; [rewrite (Hg eq_refl)|]);
    (destruct s; [rewrite (Hs eq_refl)|]); (destruct h; [rewrite (Hh eq_refl)|]);
    clear; repeat match goal with b : bool |- _ => destruct b end;
    cbn; repeat constructor.
Qed.

Lemma missing_of_mono (s1 s2 : gset string) :
  s1 ⊆ s2 → missing_of s2 `sublist_of` missing_of s1.
Proof.
  intros Hsub. rewrite !missing_of_spec. unfold has_head.
  pose proof (proj1 (elem_of_subseteq s1 s2) Hsub) as Hin.
  apply missing_from_mono; rewrite ?orb_true_iff, ?bool_decide_eq_true;
    intuition auto.
Qed.

(** X10.  More detections never add a missing item: the missing list
    computed from extended arrays is a sub-list of the one computed from the
    original arrays. *)
Theorem more_detections_less_missing (person_box : box)
    (bs bs' : list box) (cs cs' : list Z) :
  length bs = length cs →
  get_missing_gear person_box (bs ++ bs') (cs ++ cs')
    `sublist_of` get_missing_gear person_box bs cs.
Proof.
  intros Hlen. unfold get_missing_gear. apply missing_of_mono.
  intros g. rewrite !elem_of_detected_gear. rewrite zip_with_app by exact Hlen.
  intros (d & Hd & Ha). exists d. split; [|exact Ha].
  apply elem_of_app. by left.
Qed.

Lemma more_detections_less_missing_witness :
  get_missing_gear (Box 0 0 100 300)
    ([Box 40 10 60 30] ++ [Box 10 100 90 200]) ([1%Z] ++ [4%Z])
  `sublist_of` get_missing_gear (Box 0 0 100 300) [Box 40 10 60 30] [1%Z].
Proof. apply more_detections_less_missing. reflexivity. Defined.

(** X11.  The two arrays are read in lock step and the surplus of the longer
    one is ignored. *)
Theorem surplus_entries_ignored (person_box : box) (ppe_boxes : list box)
    (ppe_classes : list Z) :
  let n := length ppe_boxes `min` length ppe_classes in
  get_missing_gear person_box ppe_boxes ppe_classes
  = get_missing_gear person_box (take n ppe_boxes) (take n ppe_classes).
Proof.
  cbv zeta. unfold get_missing_gear, detected_gear.
  by rewrite zip_with_take_both' by lia.
Qed.

Lemma gear_name_inj_known (c c' : Z) :
  (1 ≤ c ≤ 6)%Z → gear_name c = gear_name c' → c = c'.
Proof.
  intros Hc Heq.
  assert (Hc' : (1 ≤ c' ≤ 6)%Z).
  { apply gear_name_tracked. rewrite <- Heq. by apply gear_name_tracked. }
  assert (c = 1 ∨ c = 2 ∨ c = 3 ∨ c = 4 ∨ c = 5 ∨ c = 6)%Z
    as [->|[->|[->|[->|[->| ->]]]]] by lia;
  assert (c' = 1 ∨ c' = 2 ∨ c' = 3 ∨ c' = 4 ∨ c' = 5 ∨ c' = 6)%Z
    as [->|[->|[->|[->|[->| ->]]]]] by lia;
  first [reflexivity | vm_compute in Heq; discriminate Heq].
Qed.

Lemma detected_iff_worn (person_box : box) (ppe_boxes : list box)
    (ppe_classes : list Z) (c : Z) :
  (1 ≤ c ≤ 6)%Z →
  gear_name c ∈ detected_gear person_box ppe_boxes ppe_classes
  ↔ worn person_box ppe_boxes ppe_classes c.
Proof.
  intros Hc. rewrite elem_of_detected_gear. unfold worn. split.
  - intros ([b c'] & Hd & Ha & Hn). cbn [fst snd] in *.
    apply (gear_name_inj_known c c' Hc) in Hn. subst c'. by exists b.
  - intros (b & Hd & Ha). by exists (b, c).
Qed.

Lemma missing_from_elem (v g s h : bool) :
  ("Vest" ∈ missing_from v g s h ↔ v = false)
  ∧ ("Gloves" ∈ missing_from v g s h ↔ g = false)
  ∧ ("Shoes" ∈ missing_from v g s h ↔ s = false)
  ∧ ("Headgear" ∈ missing_from v g s h ↔ h = false)
  ∧ (missing_from v g s h = [] ↔ v = true ∧ g = true ∧ s = true ∧ h = true).
Proof.
  destruct v, g, s, h; cbn; rewrite ?elem_of_cons, ?elem_of_nil;
    intuition congruence.
Qed.

(** X12.  The missing list, item by item: Vest, Gloves, Shoes are missing
    exactly when no detection of class 4, 5, 6 (respectively) is associated
    with the person; Headgear is missing exactly when no detection of class 1,
    2 or 3 is; and the list is empty exactly when all four requirements are
    met. *)
Theorem missing_items_characterised (person_box : box) (ppe_boxes : list box)
    (ppe_classes : list Z) :
  let missing := get_missing_gear person_box ppe_boxes ppe_classes in
  let w := worn person_box ppe_boxes ppe_classes in
  ("Vest" ∈ missing ↔ ¬ w 4%Z)
  ∧ ("Gloves" ∈ missing ↔ ¬ w 5%Z)
  ∧ ("Shoes" ∈ missing ↔ ¬ w 6%Z)
  ∧ ("Headgear" ∈ missing ↔ ¬ (w 1%Z ∨ w 2%Z ∨ w 3%Z))
  ∧ (missing = [] ↔ w 4%Z ∧ w 5%Z ∧ w 6%Z ∧ (w 1%Z ∨ w 2%Z ∨ w 3%Z)).
Proof.
  cbv zeta. unfold get_missing_gear. rewrite missing_of_spec.
  set (D := detected_gear person_box ppe_boxes ppe_classes).
  destruct (missing_from_elem (bool_decide ("Vest" ∈ D)) (bool_decide ("Gloves" ∈ D))
              (bool_decide ("Shoes" ∈ D)) (has_head D))
    as (Hv & Hg & Hs & Hh & He).
  rewrite Hv, Hg, Hs, Hh, He. unfold has_head.
  rewrite !orb_false_iff, !orb_true_iff, !bool_decide_eq_false, !bool_decide_eq_true.
  pose proof (detected_iff_worn person_box ppe_boxes ppe_classes 1 ltac:(lia)) as W1.
  pose proof (detected_iff_worn person_box ppe_boxes ppe_classes 2 ltac:(lia)) as W2.
  pose proof (detected_iff_worn person_box ppe_boxes ppe_classes 3 ltac:(lia)) as W3.
  pose proof (detected_iff_worn person_box ppe_boxes ppe_classes 4 ltac:(lia)) as W4.
  pose proof (detected_iff_worn person_box ppe_boxes ppe_classes 5 ltac:(lia)) as W5.
  pose proof (detected_iff_worn person_box ppe_boxes ppe_classes 6 ltac:(lia)) as W6.
  change (gear_name 1) with "Helmet" in W1.
  change (gear_name 2) with "Welding Helmet" in W2.
  change (gear_name 3) with "Goggles" in W3.
  change (gear_name 4) with "Vest" in W4.
  change (gear_name 5) with "Gloves" in W5.
  change (gear_name 6) with "Shoes" in W6.
  fold D in W1, W2, W3, W4, W5, W6.
  rewrite W1, W2, W3, W4, W5, W6. tauto.
Qed.

(* ===================================================================== *)
(** * Further properties of the strike system *)
(* ===================================================================== *)

(** ** The legacy loop body ([app_final.py], lines 236-279, one person) *)

Lemma legacy_strike_step_eq (w : worker) (missing_items : list string) (now : Q) :
  LegacyLoop.strike_step w missing_items now
  = update_strikes w missing_items now LegacyLoop.COOLDOWN_SECONDS.
Proof.
  unfold LegacyLoop.strike_step, update_strikes; cbv zeta.
  destruct missing_items as [|x l].
  - cbn [length]. rewrite bool_decide_eq_true_2 by reflexivity.
    rewrite (bool_decide_eq_false_2 (0 < 0)%nat) by lia. reflexivity.
  - cbn [length]. rewrite bool_decide_eq_false_2 by lia.
    rewrite (bool_decide_eq_true_2 (0 < S (length l))%nat) by lia.
    cbn [negb andb].
    destruct (bool_decide (sorted (x :: l) ≠ last_violation w)
              && QB.ltb LegacyLoop.COOLDOWN_SECONDS (now - last_strike_time w));
      reflexivity.
Qed.

(** X13.  The refactored backend keeps the behaviour of the legacy loop: the
    inline strike logic of [app_final.py] is [update_strikes] with the cooldown
    5, and the legacy body for one person leaves the registry, the log and the
    CSV file exactly as the backend body does when the snapshot is saved under
    the same name and the CSV write succeeds. *)
Theorem backend_refines_legacy_loop (now : Q) (clock snap_filename : string)
    (pid : Z) (missing_items : list string) (st : monitor) (w : worker) :
  LegacyLoop.strike_step w missing_items now
  = update_strikes w missing_items now default_cooldown
  ∧ LegacyLoop.evaluate_worker now clock snap_filename pid missing_items st
    = (evaluate_worker default_cooldown
         (Env now clock (Some snap_filename) true) pid missing_items st).2.
Proof.
  split; [apply legacy_strike_step_eq|].
  unfold LegacyLoop.evaluate_worker, evaluate_worker; cbv zeta.
  rewrite legacy_strike_step_eq. cbn [e_now e_clock e_snapshot e_io_ok].
  change LegacyLoop.COOLDOWN_SECONDS with default_cooldown.
  destruct (update_strikes _ missing_items now default_cooldown) as [[] w'];
    reflexivity.
Qed.

(** ** Cooldown windows and ongoing violations *)

Lemma update_strikes_in_window (w : worker) (missing_items : list string)
    (now cooldown : Q) :
  now - last_strike_time w <= cooldown →
  (update_strikes w missing_items now cooldown).1 = false
  ∧ strikes (update_strikes w missing_items now cooldown).2 = strikes w
  ∧ last_strike_time (update_strikes w missing_items now cooldown).2
    = last_strike_time w.
Proof.
  intros Hwin.
  pose proof (update_strikes_outcome w missing_items now cooldown) as Hout.
  inversion Hout as [Hm Hsig Hcd | Hm | Hm Hrej]; cbn [fst snd]; try done.
  exfalso. apply (Qlt_not_le _ _ Hcd Hwin).
Qed.

(** X14.  At most one strike per cooldown window: as long as the clock is no
    more than [cooldown] past the last accepted strike, no call accepts a
    strike, whatever the missing lists; count and timestamp stay as they
    are. *)
Theorem no_strike_within_cooldown (cooldown : Q) (w : worker)
    (calls : list (list string * Q)) :
  Forall (λ call, call.2 - last_strike_time w <= cooldown) calls →
  (run_strikes cooldown w calls).1 = replicate (length calls) false
  ∧ strikes (run_strikes cooldown w calls).2 = strikes w
  ∧ last_strike_time (run_strikes cooldown w calls).2 = last_strike_time w.
Proof.
  revert w. induction calls as [|[m t] rest IH]; intros w Hall.
  - done.
  - apply Forall_cons in Hall as [Hhd Htl]. cbn [snd] in Hhd.
    destruct (update_strikes_in_window w m t cooldown Hhd) as (Hr & Hs & Ht).
    cbn [run_strikes].
    destruct (update_strikes w m t cooldown) as [r w'] eqn:Hu.
    cbn [fst snd] in Hr, Hs, Ht. subst r.
    assert (Htl' : Forall (λ call, call.2 - last_strike_time w' <= cooldown) rest)
      by (by rewrite Ht).
    destruct (IH w' Htl') as (IHr & IHs & IHt).
    destruct (run_strikes cooldown w' rest) as [rs w''].
    cbn [fst snd length replicate] in *. rewrite IHr, IHs, IHt, Hs, Ht. done.
Qed.

Lemma no_strike_within_cooldown_witness :
  run_strikes default_cooldown (Worker 1 ["Vest"] 100)
    [(["Gloves"], 101); ([], 103); (["Shoes"; "Vest"], 105)]
  = ([false; false; false], Worker 1 [] 100).
Proof.
  assert (H : Forall (λ call : list string * Q,
                        call.2 - last_strike_time (Worker 1 ["Vest"] 100)
                        <= default_cooldown)
                [(["Gloves"], 101); ([], 103); (["Shoes"; "Vest"], 105)]).
  { repeat constructor; vm_compute; discriminate. }
  destruct (no_strike_within_cooldown default_cooldown (Worker 1 ["Vest"] 100) _ H)
    as (Hr & _ & _).
  rewrite (surjective_pairing (run_strikes _ _ _)), Hr. reflexivity.
Defined.

(** X15.  An ongoing violation is struck once: while every tick reports the
    (non-empty) missing list whose sorted form is the stored signature, no
    strike is accepted and the record does not change, however much time
    passes. *)
Theorem unchanged_signature_never_restruck (cooldown : Q) (w : worker)
    (calls : list (list string * Q)) :
  Forall (λ call, call.1 ≠ [] ∧ sorted call.1 = last_violation w) calls →
  run_strikes cooldown w calls = (replicate (length calls) false, w).
Proof.
  induction calls as [|[m t] rest IH]; intros Hall; [done|].
  apply Forall_cons in Hall as [[Hne Hsig] Htl]. cbn [fst] in Hne, Hsig.
  cbn [run_strikes].
  pose proof (update_strikes_outcome w m t cooldown) as Hout.
  inversion Hout as [Hm Hs Hcd | Hm | Hm Hrej]; try contradiction.
  rewrite (IH Htl). reflexivity.
Qed.

Lemma unchanged_signature_never_restruck_witness :
  run_strikes default_cooldown (Worker 1 ["Gloves"; "Vest"] 100)
    [(["Vest"; "Gloves"], 200); (["Gloves"; "Vest"], 300)]
  = ([false; false], Worker 1 ["Gloves"; "Vest"] 100).
Proof.
  apply (unchanged_signature_never_restruck default_cooldown
           (Worker 1 ["Gloves"; "Vest"] 100)).
  repeat constructor; try discriminate; vm_compute; reflexivity.
Defined.

(** ** Fired, timestamps and the clean state *)

(** X16.  Fired is permanent under [update_strikes]: once the count has
    reached the maximum it stays fired after any further sequence of calls,
    and the status shown is FIRED! whatever the current missing list. *)
Theorem fired_is_permanent (cooldown : Q) (w : worker)
    (calls : list (list string * Q)) (max_strikes : Z)
    (missing_items : list string) :
  is_fired (strikes w) max_strikes = true →
  is_fired (strikes (run_strikes cooldown w calls).2) max_strikes = true
  ∧ get_worker_status (run_strikes cooldown w calls).2 missing_items max_strikes
    = ((0, 0, 255)%Z, "FIRED!", true).
Proof.
  intros Hf. apply bool_decide_eq_true in Hf.
  destruct (run_strikes_count cooldown calls w) as [Hcount _].
  pose proof (accepted_nonneg (run_strikes cooldown w calls).1) as Hnn.
  assert (Hle : (max_strikes ≤ strikes (run_strikes cooldown w calls).2)%Z) by lia.
  split; [by apply bool_decide_eq_true|].
  unfold get_worker_status. by rewrite (bool_decide_eq_true_2 _ Hle).
Qed.

Lemma fired_is_permanent_witness :
  is_fired (strikes (run_strikes default_cooldown (Worker 15 ["Vest"] 100)
                       [([], 200); (["Gloves"], 300)]).2)
    default_max_strikes = true.
Proof.
  apply (fired_is_permanent default_cooldown (Worker 15 ["Vest"] 100)
           [([], 200); (["Gloves"], 300)] default_max_strikes []).
  reflexivity.
Defined.

Lemma update_strikes_time_mono (w : worker) (missing_items : list string)
    (now cooldown : Q) :
  0 <= cooldown →
  last_strike_time w <= last_strike_time (update_strikes w missing_items now cooldown).2.
Proof.
  intros Hcd.
  pose proof (update_strikes_outcome w missing_items now cooldown) as Hout.
  inversion Hout; cbn [fst snd last_strike_time]; lra.
Qed.

(** X17.  With a non-negative cooldown the last-strike timestamp never moves
    backwards, whatever order the clock readings of the calls come in. *)
Theorem last_strike_time_monotone (cooldown : Q) (w : worker)
    (calls : list (list string * Q)) :
  0 <= cooldown →
  last_strike_time w <= last_strike_time (run_strikes cooldown w calls).2.
Proof.
  intros Hcd. revert w. induction calls as [|[m t] rest IH]; intros w.
  - cbn. lra.
  - cbn [run_strikes].
    pose proof (update_strikes_time_mono w m t cooldown Hcd) as Hstep.
    destruct (update_strikes w m t cooldown) as [r w'].
    pose proof (IH w') as Hrest.
    destruct (run_strikes cooldown w' rest) as [rs w''].
    cbn [fst snd] in *. lra.
Qed.

Lemma last_strike_time_monotone_witness :
  last_strike_time (Worker 1 ["Vest"] 100)
  <= last_strike_time (run_strikes default_cooldown (Worker 1 ["Vest"] 100)
                         [(["Gloves"], 200); (["Shoes"], 50)]).2.
Proof.
  apply last_strike_time_monotone. vm_compute. discriminate.
Defined.

(** ** The signature as a sorted list *)

#[local] Instance str_le_total : Total str_le.
Proof. intros x y. apply String.leb_total. Qed.

#[local] Instance str_le_antisym : AntiSymm (=) str_le.
Proof. intros x y. apply String.leb_antisym. Qed.

Lemma str_le_cases (x y : string) :
  str_le x y ↔ OrderedTypeEx.String_as_OT.lt x y ∨ x = y.
Proof.
  unfold str_le, String.leb.
  rewrite <- OrderedTypeEx.String_as_OT.cmp_lt, <- OrderedTypeEx.String_as_OT.cmp_eq.
  unfold OrderedTypeEx.String_as_OT.cmp.
  destruct (String.compare x y); intuition congruence.
Qed.

#[local] Instance str_le_trans : Transitive str_le.
Proof.
  intros x y z. rewrite !str_le_cases.
  intros [Hxy| ->] [Hyz| ->]; auto.
  left. exact (OrderedTypeEx.String_as_OT.lt_trans _ _ _ Hxy Hyz).
Qed.

Lemma insort_perm (x : string) (l : list string) : insort x l ≡ₚ x :: l.
Proof.
  induction l as [|y l IH]; cbn; [done|].
  destruct (String.leb x y); [done|]. rewrite IH. apply perm_swap.
Qed.

Lemma sorted_perm (l : list string) : sorted l ≡ₚ l.
Proof.
  induction l as [|x l IH]; [done|]. unfold sorted in *. cbn [foldr].
  by rewrite insort_perm, IH.
Qed.

Lemma insort_HdRel (x y : string) (l : list string) :
  str_le y x → HdRel str_le y l → HdRel str_le y (insort x l).
Proof.
  intros Hyx Hhd. destruct l as [|z l]; cbn; [by constructor|].
  destruct (String.leb x z); constructor; [exact Hyx|].
  by inversion Hhd.
Qed.

Lemma insort_Sorted (x : string) (l : list string) :
  Sorted str_le l → Sorted str_le (insort x l).
Proof.
  induction 1 as [|y l Hs IH Hhd]; cbn; [by repeat constructor|].
  destruct (String.leb x y) eqn:E.
  - constructor; [by constructor|]. by constructor.
  - constructor; [exact IH|]. apply insort_HdRel; [|exact Hhd].
    destruct (str_le_total x y) as [H|H]; [|exact H].
    unfold str_le in H. congruence.
Qed.

Lemma sorted_Sorted (l : list string) : Sorted str_le (sorted l).
Proof.
  induction l as [|x l IH]; [constructor|]. by apply insort_Sorted.
Qed.

Lemma sorted_of_perm (l1 l2 : list string) : l1 ≡ₚ l2 → sorted l1 = sorted l2.
Proof.
  intros Hp. apply (Sorted_unique str_le); try apply sorted_Sorted.
  by rewrite !sorted_perm.
Qed.

(** X18.  The signature is the missing list up to order: [sorted] returns a
    sorted permutation of its argument, and two missing lists that are
    permutations of each other are treated alike by [update_strikes]. *)
Theorem missing_order_irrelevant (w : worker) (m1 m2 : list string)
    (now cooldown : Q) :
  m1 ≡ₚ m2 →
  sorted m1 = sorted m2
  ∧ Sorted str_le (sorted m1) ∧ sorted m1 ≡ₚ m1
  ∧ update_strikes w m1 now cooldown = update_strikes w m2 now cooldown.
Proof.
  intros Hp. pose proof (sorted_of_perm m1 m2 Hp) as Hs.
  split; [exact Hs|]. split; [apply sorted_Sorted|]. split; [apply sorted_perm|].
  unfold update_strikes. by rewrite Hs, (Permutation_length Hp).
Qed.

Lemma missing_order_irrelevant_witness :
  update_strikes (Worker 1 ["Gloves"; "Vest"] 100) ["Vest"; "Gloves"] 200 default_cooldown
  = update_strikes (Worker 1 ["Gloves"; "Vest"] 100) ["Gloves"; "Vest"] 200 default_cooldown.
Proof.
  apply missing_order_irrelevant. apply perm_swap.
Defined.

Lemma update_strikes_tidy (w : worker) (missing_items : list string)
    (now cooldown : Q) :
  tidy w → tidy (update_strikes w missing_items now cooldown).2.
Proof.
  intros (Hnn & Hclean & Hsorted).
  pose proof (update_strikes_outcome w missing_items now cooldown) as Hout.
  inversion Hout; cbn [snd]; unfold tidy; cbn [strikes last_violation].
  - split; [lia|]. split; [lia|]. apply sorted_Sorted.
  - split; [lia|]. split; [|constructor].
    intros Hz. by rewrite (Hclean Hz).
  - done.
Qed.

(** X19.  Every record reachable from a new worker (or from a reset) is
    tidy: the count is never negative, a record with count 0 is exactly the
    new-worker record (no signature, no timestamp), and the stored signature is
    sorted. *)
Theorem reachable_worker_tidy (cooldown : Q) (w : worker)
    (calls : list (list string * Q)) :
  tidy new_worker ∧ tidy (reset_worker w)
  ∧ (tidy w → tidy (run_strikes cooldown w calls).2).
Proof.
  assert (Hnew : tidy new_worker) by (repeat split; [done|constructor]).
  split; [exact Hnew|]. split; [exact Hnew|].
  revert w. induction calls as [|[m t] rest IH]; intros w Hw; [exact Hw|].
  cbn [run_strikes].
  pose proof (update_strikes_tidy w m t cooldown Hw) as Hstep.
  destruct (update_strikes w m t cooldown) as [r w'].
  pose proof (IH w' Hstep) as Hrest.
  by destruct (run_strikes cooldown w' rest) as [rs w''].
Qed.

Lemma reachable_worker_tidy_witness :
  tidy (run_strikes default_cooldown new_worker
          [(["Vest"; "Gloves"], 100); ([], 101)]).2.
Proof.
  destruct (reachable_worker_tidy default_cooldown new_worker
              [(["Vest"; "Gloves"], 100); ([], 101)]) as (Hnew & _ & Hrun).
  exact (Hrun Hnew).
Defined.

(* ===================================================================== *)
(** * Further properties of the monitoring loop and the violation log *)
(* ===================================================================== *)

(** ** One person: registry, log and file *)

(** X20.  Processing one person touches only that person's record: every
    other track keeps its record, the processed track is registered
    afterwards, and the registry's key set grows by that id at most. *)
Theorem evaluate_worker_touches_one_track (cooldown : Q) (e : env) (pid : Z)
    (missing_items : list string) (st : monitor) :
  let st' := (evaluate_worker cooldown e pid missing_items st).2 in
  (∀ other, other ≠ pid → worker_db st' !! other = worker_db st !! other)
  ∧ worker_db st' !! pid
    = Some (update_strikes (default new_worker (worker_db st !! pid))
              missing_items (e_now e) cooldown).2
  ∧ dom (worker_db st') = {[ pid ]} ∪ dom (worker_db st).
Proof.
  cbv zeta. rewrite evaluate_worker_unfold; cbv zeta. cbn [snd worker_db].
  split; [|split].
  - intros other Hne. by rewrite lookup_insert_ne.
  - by rewrite lookup_insert_eq.
  - by rewrite dom_insert_L.
Qed.

(** X21.  The log is append-only and its records agree with the registry:
    one evaluation keeps every earlier log entry and adds at most one; the
    added record carries the track's id, the missing list joined with a comma
    and a space, and the strike count the registry holds for that track after
    the evaluation; a failed snapshot leaves the evidence field empty without
    suppressing the record. *)
Theorem log_append_only (cooldown : Q) (e : env) (pid : Z)
    (missing_items : list string) (st : monitor) :
  let r := (evaluate_worker cooldown e pid missing_items st).1 in
  let st' := (evaluate_worker cooldown e pid missing_items st).2 in
  violation_log st `prefix_of` violation_log st'
  ∧ length (violation_log st') = (length (violation_log st) + if r then 1 else 0)%nat
  ∧ (r = true →
     ∃ rec, violation_log st' = violation_log st ++ [rec]
            ∧ v_id rec = "Worker-" +:+ pretty pid
            ∧ v_violation rec = String.concat ", " missing_items
            ∧ Some (v_strikes rec) = strikes <$> worker_db st' !! pid
            ∧ v_evidence rec = default "" (e_snapshot e)).
Proof.
  cbv zeta. rewrite evaluate_worker_unfold; cbv zeta.
  cbn [fst snd worker_db violation_log]. rewrite lookup_insert_eq.
  destruct ((update_strikes _ missing_items (e_now e) cooldown).1).
  - split; [by apply prefix_app_r|]. split; [rewrite length_app; cbn; lia|].
    intros _. eexists. split; [reflexivity|]. done.
  - split; [done|]. split; [lia|]. discriminate.
Qed.

Lemma log_append_only_witness :
  ∃ rec, violation_log
           (evaluate_worker default_cooldown (Env 1000 "2024-01-01 00:00:00" None true)
              7 ["Vest"] (Monitor ∅ [] [])).2
         = [] ++ [rec]
         ∧ v_id rec = "Worker-7" ∧ v_violation rec = "Vest" ∧ v_evidence rec = "".
Proof.
  destruct (log_append_only default_cooldown
              (Env 1000 "2024-01-01 00:00:00" None true) 7 ["Vest"]
              (Monitor ∅ [] [])) as (_ & _ & H).
  destruct (H eq_refl) as (rec & Hlog & Hid & Hv & _ & He).
  exists rec. done.
Defined.

Lemma save_violation_shape (rec : violation) (file : list violation) :
  save_violation true rec file `suffix_of` file ++ [rec]
  ∧ last (save_violation true rec file) = Some rec
  ∧ length (save_violation true rec file) = (S (length file) `min` 500)%nat.
Proof.
  unfold save_violation; cbv zeta.
  assert (Hlen : length (drop (length (file ++ [rec]) - 500) (file ++ [rec]))
                 = (S (length file) `min` 500)%nat)
    by (rewrite length_drop, length_app; cbn; lia).
  split; [apply suffix_drop|]. split; [|exact Hlen].
  rewrite last_lookup, Hlen, lookup_drop, length_app. cbn [length].
  replace (length file + 1 - 500 + pred (S (length file) `min` 500))%nat
    with (length file + 0)%nat by lia.
  rewrite lookup_app_r by lia.
  by replace (length file + 0 - length file)%nat with 0%nat by lia.
Qed.

(** X22.  The CSV file never holds more than 500 rows once it is within that
    bound: a successful write appends the record as the last row and keeps the
    newest 500 rows, so the earlier rows that remain are a suffix of the old
    file; a failed write leaves the file as it was. *)
Theorem save_violation_bounded (io_ok : bool) (rec : violation)
    (file : list violation) :
  (io_ok = true →
     save_violation io_ok rec file `suffix_of` file ++ [rec]
     ∧ last (save_violation io_ok rec file) = Some rec
     ∧ length (save_violation io_ok rec file) = (S (length file) `min` 500)%nat)
  ∧ (io_ok = false → save_violation io_ok rec file = file)
  ∧ (length file ≤ 500 → length (save_violation io_ok rec file) ≤ 500).
Proof.
  destruct io_ok.
  - pose proof (save_violation_shape rec file) as (Hsuf & Hlast & Hlen).
    split; [done|]. split; [discriminate|]. lia.
  - unfold save_violation. split; [discriminate|]. split; [done|lia].
Qed.

Lemma save_violation_bounded_witness :
  last (save_violation true (Violation "t" "Worker-7" "Vest" 1 "")
          [Violation "s" "Worker-3" "Gloves" 2 ""])
  = Some (Violation "t" "Worker-7" "Vest" 1 "")
  ∧ save_violation false (Violation "t" "Worker-7" "Vest" 1 "") [] = [].
Proof.
  destruct (save_violation_bounded true (Violation "t" "Worker-7" "Vest" 1 "")
              [Violation "s" "Worker-3" "Gloves" 2 ""]) as (Hok & _ & _).
  destruct (save_violation_bounded false (Violation "t" "Worker-7" "Vest" 1 "") [])
    as (_ & Hfail & _).
  destruct (Hok eq_refl) as (_ & Hlast & _).
  exact (conj Hlast (Hfail eq_refl)).
Defined.

(** ** One frame ([detection.py], [extract_detections]; [live_monitor.py],
    lines 104-144) *)

Example process_frame_ex :
  process_frame default_cooldown (λ _, Env 1000 "2024-01-01 00:00:00" None true)
    (Some [Detection (Box 40 10 60 30) 1 11; Detection (Box 0 0 100 300) 0 7;
           Detection (Box 10 100 90 200) 4 12])
    (Monitor ∅ [] [])
  = Some (Monitor {[ 7%Z := Worker 1 ["Gloves"; "Shoes"] 1000 ]}
            [Violation "2024-01-01 00:00:00" "Worker-7" "Gloves, Shoes" 1 ""]
            [Violation "2024-01-01 00:00:00" "Worker-7" "Gloves, Shoes" 1 ""]).
Proof. vm_compute. reflexivity. Qed.

Section FrameIndices.

Context {A : Type} (f : detection → A).
Context (P : Z → Prop) `{!∀ c, Decision (P c)}.

Lemma take_at_indices (pre l : list detection) :
  take_at (f <$> (pre ++ l))
    (indices_from (λ c, bool_decide (P c)) (length pre) (det_cls <$> l))
  = Some (f <$> filter (λ d, P (det_cls d)) l).
Proof.
  revert pre. induction l as [|d l IH]; intros pre; [done|].
  specialize (IH (pre ++ [d])).
  rewrite <- app_assoc, length_app, Nat.add_1_r in IH. cbn [app length] in IH.
  cbn [fmap list_fmap indices_from]. rewrite filter_cons.
  destruct (decide (P (det_cls d))) as [Hd|Hd].
  - rewrite (bool_decide_eq_true_2 _ Hd).
    unfold take_at in *. cbn [mapM]. rewrite IH.
    rewrite list_lookup_fmap, list_lookup_middle by reflexivity. done.
  - rewrite (bool_decide_eq_false_2 _ Hd). exact IH.
Qed.

Lemma indices_from_length (i : nat) (l : list detection) :
  length (indices_from (λ c, bool_decide (P c)) i (det_cls <$> l))
  = length (filter (λ d, P (det_cls d)) l).
Proof.
  revert i. induction l as [|d l IH]; intros i; [done|].
  cbn [fmap list_fmap indices_from]. rewrite filter_cons.
  destruct (decide (P (det_cls d))) as [Hd|Hd].
  - rewrite (bool_decide_eq_true_2 _ Hd). cbn [length]. by rewrite IH.
  - rewrite (bool_decide_eq_false_2 _ Hd). apply IH.
Qed.

End FrameIndices.

Lemma person_loop_persons (cooldown : Q) (oracle : nat → env)
    (ppe_boxes : list box) (ppe_classes : list Z)
    (pre l : list detection) (k : nat) (st : monitor) :
  person_loop cooldown oracle (det_box <$> (pre ++ l)) (det_id <$> (pre ++ l))
    ppe_boxes ppe_classes k
    (indices_from (λ cls, bool_decide (cls = 0%Z)) (length pre) (det_cls <$> l)) st
  = Some (persons_loop cooldown oracle ppe_boxes ppe_classes k (persons l) st).
Proof.
  revert pre k st. induction l as [|d l IH]; intros pre k st; [done|].
  pose proof (IH (pre ++ [d])) as IH'.
  rewrite <- app_assoc, length_app, Nat.add_1_r in IH'. cbn [app length] in IH'.
  cbn [fmap list_fmap indices_from]. unfold persons. rewrite filter_cons.
  destruct (decide (det_cls d = 0%Z)) as [Hd|Hd].
  - rewrite (bool_decide_eq_true_2 _ Hd). cbn [person_loop persons_loop].
    rewrite !list_lookup_fmap, list_lookup_middle by reflexivity.
    cbn [fmap option_fmap option_map mbind option_bind]. apply IH'.
  - rewrite (bool_decide_eq_false_2 _ Hd). apply IH'.
Qed.

Lemma process_frame_persons_loop (cooldown : Q) (oracle : nat → env)
    (dets : list detection) (st : monitor) :
  process_frame cooldown oracle (Some dets) st
  = Some (persons_loop cooldown oracle
            (det_box <$> equipment dets) (det_cls <$> equipment dets)
            0 (persons dets) st).
Proof.
  unfold process_frame, extract_detections; cbv zeta.
  pose proof (indices_from_length (λ c, c = 0%Z) 0 dets) as Hlen.
  case_bool_decide as Hpos.
  - rewrite (take_at_indices det_box (λ c, c ≠ 0%Z) [] dets).
    rewrite (take_at_indices det_cls (λ c, c ≠ 0%Z) [] dets).
    cbn [mbind option_bind].
    apply (person_loop_persons cooldown oracle _ _ [] dets 0 st).
  - unfold persons.
    destruct (filter (λ d, det_cls d = 0%Z) dets); [done|].
    cbn [length] in Hlen. lia.
Qed.

(** X23.  Processing a frame never fails on an index: the person and
    equipment indices computed by [extract_detections] are always in range, and
    the frame amounts to evaluating, in order, each detection of class 0
    against the boxes and classes of all detections of another class.  A frame
    without track ids or without persons changes nothing. *)
Theorem process_frame_total (cooldown : Q) (oracle : nat → env)
    (dets : list detection) (st : monitor) :
  process_frame cooldown oracle (Some dets) st
  = Some (persons_loop cooldown oracle
            (det_box <$> equipment dets) (det_cls <$> equipment dets)
            0 (persons dets) st)
  ∧ process_frame cooldown oracle None st = Some st
  ∧ (persons dets = [] → process_frame cooldown oracle (Some dets) st = Some st).
Proof.
  pose proof (process_frame_persons_loop cooldown oracle dets st) as Hmain.
  split; [exact Hmain|]. split; [reflexivity|].
  intros Hnone. rewrite Hmain, Hnone. reflexivity.
Qed.

Lemma process_frame_total_witness :
  process_frame default_cooldown (λ _, Env 1000 "2024-01-01 00:00:00" None true)
    (Some [Detection (Box 40 10 60 30) 1 11]) (Monitor ∅ [] [])
  = Some (Monitor ∅ [] []).
Proof.
  destruct (process_frame_total default_cooldown
              (λ _, Env 1000 "2024-01-01 00:00:00" None true)
              [Detection (Box 40 10 60 30) 1 11] (Monitor ∅ [] []))
    as (_ & _ & H).
  apply H. reflexivity.
Defined.

Lemma log_prefix_step (cooldown : Q) (e : env) (pid : Z)
    (missing_items : list string) (st : monitor) :
  let st' := (evaluate_worker cooldown e pid missing_items st).2 in
  violation_log st `prefix_of` violation_log st'
  ∧ length (violation_log st') ≤ length (violation_log st) + 1
  ∧ (∀ other, other ≠ pid → worker_db st' !! other = worker_db st !! other)
  ∧ is_Some (worker_db st' !! pid).
Proof.
  cbv zeta. rewrite evaluate_worker_unfold; cbv zeta.
  cbn [snd worker_db violation_log]. rewrite lookup_insert_eq.
  split; [|split; [|split; [|done]]].
  - destruct ((update_strikes _ missing_items (e_now e) cooldown).1);
      [by apply prefix_app_r|done].
  - destruct ((update_strikes _ missing_items (e_now e) cooldown).1);
      [rewrite length_app; cbn; lia|lia].
  - intros other Hne. by rewrite lookup_insert_ne.
Qed.

Lemma persons_loop_frame (cooldown : Q) (oracle : nat → env)
    (ppe_boxes : list box) (ppe_classes : list Z)
    (ps : list detection) (k : nat) (st : monitor) :
  let st' := persons_loop cooldown oracle ppe_boxes ppe_classes k ps st in
  violation_log st `prefix_of` violation_log st'
  ∧ length (violation_log st') ≤ length (violation_log st) + length ps
  ∧ (∀ other, other ∉ det_id <$> ps →
       worker_db st' !! other = worker_db st !! other)
  ∧ (∀ pid, is_Some (worker_db st !! pid) ∨ pid ∈ det_id <$> ps
            ↔ is_Some (worker_db st' !! pid)).
Proof.
  cbv zeta. revert k st. induction ps as [|p ps IH]; intros k st.
  - cbn. split; [done|]. split; [lia|]. split; [done|].
    intros pid. rewrite elem_of_nil. tauto.
  - cbn [persons_loop]. unfold process_person.
    set (m := get_missing_gear (det_box p) ppe_boxes ppe_classes).
    destruct (log_prefix_step cooldown (oracle k) (det_id p) m st)
      as (Hpre & Hlen & Hother & Hpid).
    destruct (IH (S k) (evaluate_worker cooldown (oracle k) (det_id p) m st).2)
      as (IHpre & IHlen & IHother & IHsome).
    split; [by etrans|]. split; [cbn [length]; lia|]. split.
    + intros other Hnot. rewrite fmap_cons, not_elem_of_cons in Hnot.
      destruct Hnot as [Hne Hnot]. rewrite (IHother other Hnot). by apply Hother.
    + intros pid. rewrite <- IHsome, fmap_cons, elem_of_cons.
      destruct (decide (pid = det_id p)) as [->|Hne].
      * split; intros _; [left; exact Hpid | right; by left].
      * rewrite (Hother pid Hne). tauto.
Qed.

(** X24.  What one frame can do: it keeps every earlier log entry and adds at
    most one record per person in the frame; it leaves the record of every
    track that is not a person of this frame untouched; and afterwards exactly
    the tracks known before plus the frame's persons are registered. *)
Theorem process_frame_effects (cooldown : Q) (oracle : nat → env)
    (dets : list detection) (st : monitor) :
  ∃ st', process_frame cooldown oracle (Some dets) st = Some st'
    ∧ violation_log st `prefix_of` violation_log st'
    ∧ length (violation_log st')
      ≤ length (violation_log st) + length (persons dets)
    ∧ (∀ other, other ∉ det_id <$> persons dets →
         worker_db st' !! other = worker_db st !! other)
    ∧ (∀ pid, is_Some (worker_db st' !! pid)
              ↔ is_Some (worker_db st !! pid) ∨ pid ∈ det_id <$> persons dets).
Proof.
  eexists. split; [apply process_frame_persons_loop|].
  destruct (persons_loop_frame cooldown oracle
              (det_box <$> equipment dets) (det_cls <$> equipment dets)
              (persons dets) 0 st) as (Hpre & Hlen & Hother & Hsome).
  split; [exact Hpre|]. split; [exact Hlen|]. split; [exact Hother|].
  intros pid. symmetry. apply Hsome.
Qed.

(** ** Administrative reset ([violations_log.py], "Delete All Records") *)

(** X25.  The administrative reset forgets every track: the registry and the
    log are empty afterwards (the file too unless its removal failed), and the
    next evaluation of any track id behaves as for a person never seen before,
    ending with a strike count of 0 or 1. *)
Theorem delete_all_records_resets (io_ok : bool) (st : monitor) (cooldown : Q)
    (e : env) (pid : Z) (missing_items : list string) :
  let st0 := delete_all_records io_ok st in
  let fresh := update_strikes new_worker missing_items (e_now e) cooldown in
  (∀ other, worker_db st0 !! other = None)
  ∧ violation_log st0 = []
  ∧ (io_ok = true → database_file st0 = [])
  ∧ (evaluate_worker cooldown e pid missing_items st0).1 = fresh.1
  ∧ worker_db (evaluate_worker cooldown e pid missing_items st0).2
    = {[ pid := fresh.2 ]}
  ∧ (0 ≤ strikes fresh.2 ≤ 1)%Z.
Proof.
  cbv zeta. split; [intros other; apply lookup_empty|]. split; [done|].
  split; [by intros ->|].
  rewrite evaluate_worker_unfold; cbv zeta.
  cbn [fst snd worker_db delete_all_records]. rewrite lookup_empty.
  cbn [from_option id]. split; [done|]. split; [done|].
  rewrite update_strikes_count. cbn [strikes new_worker].
  destruct ((update_strikes new_worker missing_items (e_now e) cooldown).1); lia.
Qed.

Lemma delete_all_records_resets_witness :
  database_file (delete_all_records true
                   (Monitor {[ 7%Z := Worker 15 ["Vest"] 100 ]} []
                      [Violation "t" "Worker-7" "Vest" 15 ""])) = [].
Proof.
  destruct (delete_all_records_resets true
              (Monitor {[ 7%Z := Worker 15 ["Vest"] 100 ]} []
                 [Violation "t" "Worker-7" "Vest" 15 ""])
              default_cooldown (Env 1000 "c" None true) 7 ["Vest"])
    as (_ & _ & H & _).
  exact (H eq_refl).
Defined.

(** ** Reading the log back ([visionsafe/api.py], [recent]) *)

Lemma reverse_drop_take {A : Type} (n : nat) (l : list A) :
  reverse (drop (length l - n) l) = take n (reverse l).
Proof.
  revert n. induction l as [|x l IH] using rev_ind; intros n.
  - by rewrite drop_nil, reverse_nil, take_nil.
  - rewrite reverse_snoc, length_app. cbn [length]. destruct n as [|n].
    + rewrite Nat.sub_0_r, drop_ge by (rewrite length_app; cbn; lia). done.
    + replace (length l + 1 - S n)%nat with (length l - n)%nat by lia.
      rewrite drop_app_le by lia. rewrite reverse_snoc. cbn [take].
      by rewrite IH.
Qed.

(** X26.  [/recent] returns the rows of the loaded frame newest first: for a
    non-negative limit it is the first [limit] rows of the reversed frame, so
    for a positive limit the first row returned is the last row of the frame;
    a negative limit returns all but the first [-limit] rows, reversed; and the
    answer never has more rows than the frame. *)
Theorem recent_newest_first {A : Type} (limit : Z) (df : list A) :
  ((0 ≤ limit)%Z → recent limit df = take (Z.to_nat limit) (reverse df))
  ∧ ((0 < limit)%Z → head (recent limit df) = last df)
  ∧ ((limit < 0)%Z → recent limit df = reverse (drop (Z.to_nat (- limit)) df))
  ∧ length (recent limit df) ≤ length df.
Proof.
  assert (Hnn : (0 ≤ limit)%Z → recent limit df = take (Z.to_nat limit) (reverse df)).
  { intros Hlim. unfold recent, tail.
    destruct df as [|x df]; [by rewrite reverse_nil, take_nil|].
    case_bool_decide as H0.
    - subst limit. done.
    - rewrite bool_decide_eq_true_2 by lia. apply reverse_drop_take. }
  assert (Hneg : (limit < 0)%Z →
                 recent limit df = reverse (drop (Z.to_nat (- limit)) df)).
  { intros Hlim. unfold recent, tail.
    destruct df as [|x df]; [by rewrite drop_nil, reverse_nil|].
    by rewrite !bool_decide_eq_false_2 by lia. }
  split; [exact Hnn|]. split; [|split; [exact Hneg|]].
  - intros Hpos. rewrite Hnn by lia. rewrite <- head_reverse.
    destruct (Z.to_nat limit) as [|n] eqn:En; [lia|].
    by destruct (reverse df).
  - destruct (decide (0 ≤ limit)%Z) as [Hlim|Hlim].
    + rewrite Hnn, length_take, length_reverse by exact Hlim. lia.
    + rewrite Hneg, length_reverse, length_drop by lia. lia.
Qed.

Lemma recent_newest_first_witness :
  recent 2 ["row1"; "row2"; "row3"] = ["row3"; "row2"]
  ∧ head (recent 2 ["row1"; "row2"; "row3"]) = Some "row3"
  ∧ recent (-1) ["row1"; "row2"; "row3"] = ["row3"; "row2"].
Proof.
  destruct (recent_newest_first 2 ["row1"; "row2"; "row3"]) as (Hnn & Hhd & _ & _).
  destruct (recent_newest_first (-1) ["row1"; "row2"; "row3"]) as (_ & _ & Hneg & _).
  exact (conj (Hnn ltac:(lia)) (conj (Hhd ltac:(lia)) (Hneg ltac:(lia)))).
Defined.

(** ** Violations by type ([database.py], [get_violations_by_type]) *)

Lemma append_empty_r (s : string) : s +:+ "" = s.
Proof.
  induction s as [|c s IH]; [reflexivity|].
  change (String c (s +:+ "") = String c s). by rewrite IH.
Qed.

Lemma append_snoc (cur : string) (c : ascii) (s : string) :
  (cur +:+ String c "") +:+ s = cur +:+ String c s.
Proof.
  induction cur as [|a cur IH]; [reflexivity|].
  change (String a ((cur +:+ String c "") +:+ s) = String a (cur +:+ String c s)).
  by rewrite IH.
Qed.

Lemma split_go_step (c : ascii) (rest cur : string) :
  Ascii.eqb c ","%char = false →
  split_go (String c rest) cur = split_go rest (cur +:+ String c "").
Proof. intros Hc. destruct rest; cbn [split_go]; by rewrite ?Hc. Qed.

Lemma split_go_item (x rest cur : string) :
  has_comma x = false →
  split_go (x +:+ ", " +:+ rest) cur = (cur +:+ x) :: split_go rest ""
  ∧ split_go x cur = [cur +:+ x].
Proof.
  revert cur. induction x as [|c x IH]; intros cur Hx.
  - rewrite append_empty_r. done.
  - cbn [has_comma] in Hx. apply orb_false_iff in Hx as [Hc Hx].
    change (String c x +:+ ", " +:+ rest) with (String c (x +:+ ", " +:+ rest)).
    rewrite !split_go_step by exact Hc.
    destruct (IH (cur +:+ String c "") Hx) as [IH1 IH2].
    rewrite IH1, IH2, append_snoc. done.
Qed.

Lemma split_join (ms : list string) :
  ms ≠ [] → Forall (λ x, has_comma x = false) ms →
  split_comma_space (String.concat ", " ms) = ms.
Proof.
  unfold split_comma_space.
  induction ms as [|x ms IH]; intros Hne Hall; [done|].
  apply Forall_cons in Hall as [Hx Hall].
  destruct ms as [|y ms].
  - change (String.concat ", " [x]) with x.
    by rewrite (proj2 (split_go_item x "" "" Hx)).
  - change (String.concat ", " (x :: y :: ms))
      with (x +:+ ", " +:+ String.concat ", " (y :: ms)).
    rewrite (proj1 (split_go_item x _ "" Hx)).
    change ("" +:+ x) with x. by rewrite IH.
Qed.

(** X27.  The comma-and-space join of [record_violation] and the split of
    [get_violations_by_type] are inverse on what the monitor logs: splitting
    the [Violation] field of a record gives back the missing list it was built
    from, for every non-empty list whose items contain no comma (in particular
    every non-empty list returned by [get_missing_gear]).  The empty list does
    not round-trip: its field splits into one empty string. *)
Theorem violation_field_round_trip (clock : string) (pid strikes : Z)
    (evidence : option string) (missing_items : list string) :
  (missing_items ≠ [] → Forall (λ x, has_comma x = false) missing_items →
   split_comma_space
     (v_violation (record_violation clock pid missing_items strikes evidence))
   = missing_items)
  ∧ (∀ person_box ppe_boxes ppe_classes,
       missing_items = get_missing_gear person_box ppe_boxes ppe_classes →
       Forall (λ x, has_comma x = false) missing_items)
  ∧ split_comma_space (v_violation (record_violation clock pid [] strikes evidence))
    = [""].
Proof.
  split; [intros Hne Hall; by apply split_join|]. split; [|done].
  intros person_box ppe_boxes ppe_classes ->.
  unfold get_missing_gear. rewrite missing_of_spec.
  destruct (bool_decide _), (bool_decide _), (bool_decide _), (has_head _);
    cbn; repeat constructor.
Qed.

Lemma violation_field_round_trip_witness :
  split_comma_space
    (v_violation (record_violation "t" 7 ["Vest"; "Gloves"; "Headgear"] 1 None))
  = ["Vest"; "Gloves"; "Headgear"].
Proof.
  destruct (violation_field_round_trip "t" 7 1 None ["Vest"; "Gloves"; "Headgear"])
    as (H & _ & _).
  apply H; [discriminate|repeat constructor].
Defined.

Lemma value_counts_lookup (values : list string) (g : string) :
  default 0%nat (value_counts values !! g) = length (filter (λ x, x = g) values).
Proof.
  induction values as [|x values IH]; [done|].
  unfold value_counts in *. cbn [foldr]. rewrite filter_cons.
  destruct (decide (x = g)) as [->|Hne].
  - rewrite lookup_insert_eq. cbn [from_option id length]. by rewrite IH.
  - by rewrite lookup_insert_ne.
Qed.

Lemma count_NoDup (m : list string) (g : string) :
  NoDup m →
  length (filter (λ x, x = g) m) = if decide (g ∈ m) then 1%nat else 0%nat.
Proof.
  induction 1 as [|x m Hx Hnd IH]; [done|].
  rewrite filter_cons, (decide_ext (g ∈ x :: m) (g = x ∨ g ∈ m))
    by apply elem_of_cons.
  destruct (decide (x = g)) as [->|Hne].
  - cbn [length]. rewrite IH. rewrite decide_False by exact Hx.
    by rewrite decide_True by (by left).
  - rewrite IH. destruct (decide (g ∈ m)) as [Hin|Hin].
    + by rewrite decide_True by (by right).
    + rewrite decide_False; [done|]. intros [->|?]; contradiction.
Qed.

Lemma policy_no_comma (m : list string) :
  m `sublist_of` policy → Forall (λ x, has_comma x = false) m.
Proof.
  intros Hsub. apply Forall_forall. intros x Hx.
  pose proof (elem_of_sublist _ _ _ Hx Hsub) as Hp.
  unfold policy in Hp. rewrite !elem_of_cons, elem_of_nil in Hp.
  destruct Hp as [->|[->|[->|[->|[]]]]]; reflexivity.
Qed.

Lemma logged_column_split (mss : list (list string)) :
  Forall (λ m, m ≠ [] ∧ m `sublist_of` policy) mss →
  (String.concat ", " <$> mss) ≫= split_comma_space = concat mss.
Proof.
  induction 1 as [|m mss [Hne Hsub] Hall IH]; [done|].
  rewrite fmap_cons, bind_cons. cbn [concat].
  by rewrite IH, (split_join m Hne (policy_no_comma m Hsub)).
Qed.

(** X28.  The by-type statistics count, for each requirement, the logged
    violations in which it was missing: on a [Violation] column written by
    [record_violation] from non-empty missing lists within the policy, the
    count of a label is the number of those lists containing it.  An empty
    file gives the empty dictionary. *)
Theorem violations_by_type_counts (mss : list (list string)) (g : string) :
  Forall (λ m, m ≠ [] ∧ m `sublist_of` policy) mss →
  default 0%nat (get_violations_by_type (String.concat ", " <$> mss) !! g)
  = length (filter (λ m, g ∈ m) mss)
  ∧ get_violations_by_type [] = ∅.
Proof.
  intros Hall. split; [|done].
  assert (Hcounts : default 0%nat
                      (value_counts ((String.concat ", " <$> mss) ≫= split_comma_space) !! g)
                    = length (filter (λ m, g ∈ m) mss)).
  { rewrite value_counts_lookup, (logged_column_split mss Hall).
    clear -Hall. induction Hall as [|m mss [Hne Hsub] Hall IH]; [done|].
    cbn [concat]. rewrite filter_app, length_app, IH, filter_cons.
    rewrite (count_NoDup m g (sublist_NoDup _ _ policy_NoDup Hsub)).
    by destruct (decide (g ∈ m)). }
  destruct mss as [|m mss]; [done|]. exact Hcounts.
Qed.

Lemma violations_by_type_counts_witness :
  default 0%nat
    (get_violations_by_type ["Vest, Gloves"; "Vest"; "Shoes, Headgear"] !! "Vest")
  = 2%nat.
Proof.
  assert (H : Forall (λ m : list string, m ≠ [] ∧ m `sublist_of` policy)
                [["Vest"; "Gloves"]; ["Vest"]; ["Shoes"; "Headgear"]]).
  { repeat constructor; discriminate. }
  destruct (violations_by_type_counts _ "Vest" H) as [Hc _].
  etrans; [exact Hc|]. reflexivity.
Defined.

(** ** Identifiers and labels *)

Lemma append_inj_r (p s1 s2 : string) : p +:+ s1 = p +:+ s2 → s1 = s2.
Proof.
  induction p as [|c p IH]; [done|].
  change (String c (p +:+ s1) = String c (p +:+ s2) → s1 = s2).
  intros [= H]. by apply IH.
Qed.

(** X29.  Log identifiers separate tracks: the records of two evaluations
    carry the same [ID] only if they are about the same track id, so counting
    distinct IDs in the file counts distinct tracks. *)
Theorem log_id_identifies_track (clock1 clock2 : string) (pid1 pid2 : Z)
    (m1 m2 : list string) (s1 s2 : Z) (ev1 ev2 : option string) :
  v_id (record_violation clock1 pid1 m1 s1 ev1)
  = v_id (record_violation clock2 pid2 m2 s2 ev2)
  ↔ pid1 = pid2.
Proof.
  cbn [v_id record_violation]. split; [|by intros ->].
  intros H. apply append_inj_r in H. by apply (inj pretty).
Qed.

(** X30.  Drawing the label never indexes an empty list: the label is always
    produced, and it is FIRED! for a fired track whatever is missing, else the
    first missing item, else SAFE, in step with the status and colour returned
    by [get_worker_status]. *)
Theorem frame_label_total (pid : Z) (w : worker) (missing_items : list string)
    (max_strikes : Z) :
  frame_label pid w missing_items max_strikes
  = Some ("ID:" +:+ pretty pid +:+ " " +:+
          if is_fired (strikes w) max_strikes then "FIRED!"
          else match missing_items with [] => "SAFE" | x :: _ => x end)
  ∧ (get_worker_status w missing_items max_strikes).1.2
    = (if is_fired (strikes w) max_strikes then "FIRED!"
       else match missing_items with [] => "SAFE" | _ :: _ => "UNSAFE" end).
Proof.
  unfold frame_label, get_worker_status, is_fired; cbv zeta.
  case_bool_decide as Hf; [done|].
  destruct missing_items as [|x l]; [done|].
  cbn [length]. rewrite (bool_decide_eq_true_2 (0 < S (length l))%nat) by lia.
  rewrite (bool_decide_eq_false_2 (S (length l) = 0)%nat) by lia. done.
Qed.

Lemma evaluate_worker_touches_one_track_witness :
  worker_db (evaluate_worker default_cooldown (Env 1000 "c" None true) 7 ["Vest"]
               (Monitor {[ 3%Z := Worker 2 [] 50 ]} [] [])).2 !! 3%Z
  = Some (Worker 2 [] 50).
Proof.
  destruct (evaluate_worker_touches_one_track default_cooldown
              (Env 1000 "c" None true) 7 ["Vest"]
              (Monitor {[ 3%Z := Worker 2 [] 50 ]} [] [])) as (Hother & _ & _).
  rewrite (Hother 3%Z ltac:(lia)). reflexivity.
Defined.

Lemma process_frame_effects_witness :
  ∃ st', process_frame default_cooldown (λ _, Env 1000 "c" None true)
           (Some [Detection (Box 0 0 100 300) 0 7; Detection (Box 40 10 60 30) 1 11])
           (Monitor {[ 3%Z := Worker 2 [] 50 ]} [] []) = Some st'
         ∧ worker_db st' !! 3%Z = Some (Worker 2 [] 50)
         ∧ length (violation_log st') ≤ 1.
Proof.
  destruct (process_frame_effects default_cooldown (λ _, Env 1000 "c" None true)
              [Detection (Box 0 0 100 300) 0 7; Detection (Box 40 10 60 30) 1 11]
              (Monitor {[ 3%Z := Worker 2 [] 50 ]} [] []))
    as (st' & Hrun & _ & Hlen & Hother & _).
  exists st'. split; [exact Hrun|]. split; [|exact Hlen].
  rewrite (Hother 3%Z); [reflexivity|].
  change (3%Z ∉ [7%Z]). rewrite elem_of_cons, elem_of_nil. lia.
Defined.
